(** * Authentication and authorization core of the task-tracking service

    A shallow embedding of [src/core/security.py], [src/core/middleware.py],
    [src/api/auth.py], [src/api/deps.py], [src/api/tasks.py] and
    [src/services/task_service.py].

    The service delegates to four third-party libraries: PyJWT (token wire
    format and claim validation), pydantic (payload models), passlib (bcrypt
    context) and Python's [uuid].  Their cryptographic and textual primitives
    are interfaces (type classes with the laws the libraries document); the
    control flow the libraries perform around these primitives, and every
    function of the repository, is written out.

    Conventions.
    - A Python [str] is the [string] of its UTF-8 encoding; [bytes] are the
      [string] of their bytes.
    - Instants ([datetime] values and the readings of the clock) are
      microseconds since the epoch, the resolution of [datetime]; the [exp],
      [iat] and [nbf] claims of a token are whole seconds.  The float that
      [timestamp()] returns is taken as the exact number of seconds (a double
      separates an instant from the whole seconds around it until the year
      2242); [datetime] arithmetic is not bounded.
    - A Python call that may raise returns a [result]; [try]/[except] is a
      match on the exception's class. *)

From Stdlib Require Import ZArith Lia Ascii String.
From Stdlib Require Import Floats.SpecFloat.
From stdpp Require Import base option strings gmap list countable.

Open Scope string_scope.
Open Scope Z_scope.

(** ** Exceptions and results *)

Inductive exn : Type :=
  (* jwt.exceptions, all subclasses of InvalidTokenError *)
  | ExpiredSignatureError
  | DecodeError
  | InvalidSignatureError
  | InvalidAlgorithmError
  | ImmatureSignatureError
  | InvalidIssuedAtError
  | InvalidAudienceError
  | InvalidSubjectError
  | InvalidJTIError
  (* pydantic *)
  | ValidationError
  (* builtins *)
  | TypeError
  | ValueError
  | OverflowError
  | NotImplementedError
  (* passlib.exc, subclasses of ValueError; the last two are the subclasses
     of PasswordValueError *)
  | UnknownHashError
  | PasswordSizeError
  | NullPasswordError
  (* fastapi.HTTPException(status_code, detail={code, message}, headers) *)
  | HTTPException (status_code : Z) (code message : string)
                  (headers : list (string * string)).

Definition is_ExpiredSignatureError (e : exn) : bool :=
  match e with ExpiredSignatureError => true | _ => false end.

Definition is_InvalidTokenError (e : exn) : bool :=
  match e with
  | ExpiredSignatureError | DecodeError | InvalidSignatureError
  | InvalidAlgorithmError | ImmatureSignatureError | InvalidIssuedAtError
  | InvalidAudienceError | InvalidSubjectError | InvalidJTIError => true
  | _ => false
  end.

Definition is_ValueError (e : exn) : bool :=
  match e with
  | ValueError | ValidationError | UnknownHashError | PasswordSizeError
  | NullPasswordError => true
  | _ => false
  end.

Definition is_TypeError (e : exn) : bool :=
  match e with TypeError => true | _ => false end.

Inductive result (A : Type) : Type :=
  | Ok (a : A)
  | Raise (e : exn).
Arguments Ok {A} a.
Arguments Raise {A} e.

Definition rbind {A B} (r : result A) (k : A -> result B) : result B :=
  match r with
  | Ok a => k a
  | Raise e => Raise e
  end.

Declare Scope result_scope.
Delimit Scope result_scope with result.
Notation "'let?' x ':=' r 'in' k" := (rbind r (fun x => k))
  (at level 10, x pattern, r at level 100, k at level 200) : result_scope.

#[global] Instance result_fmap : FMap result :=
  fun A B f r => rbind r (fun a => Ok (f a)).

(** [of_option e o]: the value of [o], or raise [e]. *)
Definition of_option {A} (e : exn) (o : option A) : result A :=
  match o with
  | Some a => Ok a
  | None => Raise e
  end.

Definition raises {A} (r : result A) : Prop :=
  match r with Raise _ => True | Ok _ => False end.

(** [try: r except ValueError: raise e] for a call that raises builtin
    exceptions only. *)
Definition try_value_error {A} (r : result A) (e : exn) : result A :=
  match r with
  | Raise ValueError => Raise e
  | _ => r
  end.

(** ** JSON values of headers and claims

    What [json.loads] returns: [None], [bool], [int], [float] (an IEEE 754
    double, infinities and NaN included), [str], [list] and [dict]. *)

#[warnings="-register-all"]
Inductive json : Type :=
  | JNull
  | JBool (b : bool)
  | JInt (z : Z)
  | JFloat (f : spec_float)
  | JStr (s : string)
  | JArr (items : list json)
  | JObj (members : list (string * json)).

Lemma json_nested_ind (P : json -> Prop) :
  P JNull -> (forall b, P (JBool b)) -> (forall z, P (JInt z)) ->
  (forall f, P (JFloat f)) -> (forall s, P (JStr s)) ->
  (forall items, Forall P items -> P (JArr items)) ->
  (forall members, Forall (fun m => P (snd m)) members -> P (JObj members)) ->
  forall j, P j.
Proof.
  intros Hnull Hbool Hint Hfloat Hstr Harr Hobj.
  fix IH 1. intros [|b|z|f|s|items|members].
  - exact Hnull.
  - apply Hbool.
  - apply Hint.
  - apply Hfloat.
  - apply Hstr.
  - apply Harr. induction items as [|j rest IHrest]; constructor.
    + apply IH.
    + exact IHrest.
  - apply Hobj. induction members as [|[k j] rest IHrest]; constructor.
    + apply IH.
    + exact IHrest.
Qed.

#[global] Instance spec_float_eq_dec : EqDecision spec_float.
Proof. solve_decision. Defined.

Definition float_to_sum (f : spec_float)
  : bool + (bool + (unit + bool * positive * Z)) :=
  match f with
  | S754_zero s => inl s
  | S754_infinity s => inr (inl s)
  | S754_nan => inr (inr (inl tt))
  | S754_finite s m e => inr (inr (inr (s, m, e)))
  end.

Definition float_of_sum (x : bool + (bool + (unit + bool * positive * Z)))
  : spec_float :=
  match x with
  | inl s => S754_zero s
  | inr (inl s) => S754_infinity s
  | inr (inr (inl _)) => S754_nan
  | inr (inr (inr (s, m, e))) => S754_finite s m e
  end.

#[global] Instance spec_float_countable : Countable spec_float.
Proof.
  apply (inj_countable' float_to_sum float_of_sum). by intros [].
Defined.

(** JSON values as trees over the scalars, for equality and counting. *)
Definition scalar : Type := unit + (bool + (Z + (spec_float + string))).

Fixpoint json_to_tree (j : json) : gen_tree scalar :=
  match j with
  | JNull => GenLeaf (inl tt)
  | JBool b => GenLeaf (inr (inl b))
  | JInt z => GenLeaf (inr (inr (inl z)))
  | JFloat f => GenLeaf (inr (inr (inr (inl f))))
  | JStr s => GenLeaf (inr (inr (inr (inr s))))
  | JArr items => GenNode 0 (map json_to_tree items)
  | JObj members =>
      GenNode 1
        (map (fun m => GenNode 2 [GenLeaf (inr (inr (inr (inr (fst m)))));
                                  json_to_tree (snd m)])
           members)
  end.

Fixpoint json_of_tree (t : gen_tree scalar) : json :=
  match t with
  | GenLeaf (inl _) => JNull
  | GenLeaf (inr (inl b)) => JBool b
  | GenLeaf (inr (inr (inl z))) => JInt z
  | GenLeaf (inr (inr (inr (inl f)))) => JFloat f
  | GenLeaf (inr (inr (inr (inr s)))) => JStr s
  | GenNode O items => JArr (map json_of_tree items)
  | GenNode _ members =>
      JObj (map (fun m =>
                   match m with
                   | GenNode _ [GenLeaf (inr (inr (inr (inr k)))); v] =>
                       (k, json_of_tree v)
                   | _ => (EmptyString, JNull)
                   end)
              members)
  end.

Lemma json_of_to_tree j : json_of_tree (json_to_tree j) = j.
Proof.
  induction j as [| | | | |items IH|members IH] using json_nested_ind;
    simpl; try done.
  - f_equal. rewrite map_map.
    induction IH as [|j rest Hj _ IHrest]; simpl; [done|].
    by rewrite Hj, IHrest.
  - f_equal. rewrite map_map.
    induction IH as [|[k j] rest Hj _ IHrest]; simpl; [done|].
    simpl in Hj. by rewrite Hj, IHrest.
Qed.

#[global] Instance json_eq_dec : EqDecision json.
Proof.
  intros x y.
  destruct (decide (json_to_tree x = json_to_tree y)) as [E|E].
  - left. rewrite <- (json_of_to_tree x), <- (json_of_to_tree y). by rewrite E.
  - right. by intros ->.
Defined.

#[global] Instance json_countable : Countable json.
Proof.
  apply (inj_countable' json_to_tree json_of_tree json_of_to_tree).
Defined.

(** Python truthiness of a decoded JSON value. *)
Definition truthy (j : json) : bool :=
  match j with
  | JNull => false
  | JBool b => b
  | JInt z => negb (Z.eqb z 0)
  | JFloat (S754_zero _) => false
  | JFloat _ => true
  | JStr s => negb (String.eqb s "")
  | JArr items => negb (bool_decide (items = []))
  | JObj members => negb (bool_decide (members = []))
  end.

Abbreviation jobject := (gmap string json).

(** ** Strings: splitting on dots *)

Definition is_dot (c : ascii) : bool := Ascii.eqb c ".".

Fixpoint has_dot (s : string) : bool :=
  match s with
  | EmptyString => false
  | String c r => is_dot c || has_dot r
  end.

(** [s.split(".", 1)] when it yields two parts: around the first dot. *)
Fixpoint split_first_dot (s : string) : option (string * string) :=
  match s with
  | EmptyString => None
  | String c r =>
      if is_dot c then Some (EmptyString, r)
      else match split_first_dot r with
           | Some (a, b) => Some (String c a, b)
           | None => None
           end
  end.

(** [s.rsplit(".", 1)] when it yields two parts: around the last dot. *)
Fixpoint rsplit_last_dot (s : string) : option (string * string) :=
  match s with
  | EmptyString => None
  | String c r =>
      match rsplit_last_dot r with
      | Some (a, b) => Some (String c a, b)
      | None => if is_dot c then Some (EmptyString, r) else None
      end
  end.

(** ** Library interfaces *)

(** The primitives under PyJWT's compact serialization. *)
Class Jose : Type := {
  (* jwt.utils.base64url_encode / base64url_decode *)
  base64url_encode : string -> string;
  base64url_decode : string -> option string;
  (* json.dumps of an object / json.loads accepting only an object *)
  json_dumps : jobject -> string;
  json_loads : string -> option jobject;
  (* hmac.new(key, msg, hashlib.sha256).digest() *)
  hmac_sha256 : string -> string -> string;
  base64url_decode_encode b : base64url_decode (base64url_encode b) = Some b;
  base64url_encode_no_dot b : has_dot (base64url_encode b) = false;
  json_loads_dumps o : json_loads (json_dumps o) = Some o;
}.

(** Python's [uuid.UUID]. *)
Class UuidLib : Type := {
  UUID : Type;
  UUID_eq_dec :: EqDecision UUID;
  (* UUID(hex_string), None standing for ValueError *)
  UUID_of_str : string -> option UUID;
  (* str(uuid) *)
  str_of_UUID : UUID -> string;
  UUID_of_str_of_UUID u : UUID_of_str (str_of_UUID u) = Some u;
}.

(** Coercions whose grammar is left to the libraries: [int(s)] on a string
    (None for ValueError) and pydantic's coercion of a string, an integer or
    a float into a [datetime] (None for a validation error).  Of the last,
    what pydantic documents: an integer from 0 to 2e10 is a number of
    seconds since the epoch, and no integer reaches beyond the year 9999,
    taken as milliseconds. *)
Class Coercions : Type := {
  int_of_str : string -> option Z;
  datetime_of_str : string -> option Z;
  datetime_of_int : Z -> option Z;
  datetime_of_float : spec_float -> option Z;
  datetime_of_int_seconds n :
    0 <= n <= 20000000000 -> datetime_of_int n = Some (n * 1000000);
  datetime_of_int_large n :
    253402300800000 <= n -> datetime_of_int n = None;
}.

(** [str.lower], the Unicode lowercase mapping: what it does on ASCII text,
    and that lowering twice is lowering once. *)
Definition lower_ascii (c : ascii) : ascii :=
  let n := nat_of_ascii c in
  if (Nat.leb 65 n && Nat.leb n 90)%bool then ascii_of_nat (n + 32) else c.

Fixpoint ascii_lower (s : string) : string :=
  match s with
  | EmptyString => EmptyString
  | String c r => String (lower_ascii c) (ascii_lower r)
  end.

Fixpoint is_ascii (s : string) : bool :=
  match s with
  | EmptyString => true
  | String c r => Nat.ltb (nat_of_ascii c) 128 && is_ascii r
  end.

Class Unicode : Type := {
  lower : string -> string;
  lower_idemp s : lower (lower s) = lower s;
  lower_of_ascii s : is_ascii s = true -> lower s = ascii_lower s;
}.

(** ** PyJWT (2.10): compact serialization, signature, registered claims *)

Section PyJWT.
Context `{J : Jose} `{C : Coercions}.

(** [jwt.algorithms]: the signing functions by name.  Only the algorithm
    this service configures is modelled; another name is unsupported. *)
Definition get_algorithm_by_name (alg : string)
  : option (string -> string -> string) :=
  if String.eqb alg "HS256" then Some hmac_sha256 else None.

Definition jws_header (algorithm : string) : jobject :=
  <["typ" := JStr "JWT"]> (<["alg" := JStr algorithm]> ∅).

Definition jws_signing_input (header payload : jobject) : string :=
  base64url_encode (json_dumps header) ++ "."
    ++ base64url_encode (json_dumps payload).

(** [jwt.encode(payload, key, algorithm)].  The time claims are already
    whole seconds: [create_access_token] below writes out the conversion
    [jwt.encode] applies to a [datetime]. *)
Definition jwt_encode (payload : jobject) (key algorithm : string)
  : result string :=
  match get_algorithm_by_name algorithm with
  | None => Raise NotImplementedError
  | Some sign =>
      let signing_input := jws_signing_input (jws_header algorithm) payload in
      Ok (signing_input ++ "."
            ++ base64url_encode (sign key signing_input))
  end.

(** [PyJWS._load]: header, payload bytes, signing input, signature.  Of the
    header only [alg] is read; the checks of [kid], [crit] and [b64], which
    refuse a token with [InvalidTokenError] whatever the instant, are not
    modelled. *)
Definition jws_load (token : string)
  : result (jobject * string * string * string) :=
  match rsplit_last_dot token with
  | None => Raise DecodeError
  | Some (signing_input, crypto_segment) =>
      match split_first_dot signing_input with
      | None => Raise DecodeError
      | Some (header_segment, payload_segment) =>
          let? header_data :=
            of_option DecodeError (base64url_decode header_segment) in
          let? header := of_option DecodeError (json_loads header_data) in
          let? payload :=
            of_option DecodeError (base64url_decode payload_segment) in
          let? signature :=
            of_option DecodeError (base64url_decode crypto_segment) in
          Ok (header, payload, signing_input, signature)
      end
  end%result.

(** [alg in algorithms] for a decoded header value. *)
Definition alg_in (alg : json) (algorithms : list string) : bool :=
  match alg with
  | JStr a => bool_decide (a ∈ algorithms)
  | _ => false
  end.

(** [PyJWS._verify_signature]. *)
Definition jws_verify_signature (signing_input : string) (header : jobject)
    (signature key : string) (algorithms : list string) : result unit :=
  match header !! "alg" with
  | None => Raise InvalidAlgorithmError
  | Some alg =>
      if negb (truthy alg) || negb (alg_in alg algorithms)
      then Raise InvalidAlgorithmError
      else
        match alg with
        | JStr a =>
            match get_algorithm_by_name a with
            | None => Raise InvalidAlgorithmError
            | Some sign =>
                if String.eqb (sign key signing_input) signature
                then Ok tt
                else Raise InvalidSignatureError
            end
        | _ => Raise InvalidAlgorithmError
        end
  end.

(** One second, in microseconds. *)
Definition second : Z := 1000000.

(** [int(x)] on a float: the integer part; NaN is a [ValueError], an
    infinity an [OverflowError]. *)
Definition int_of_float (f : spec_float) : result Z :=
  match f with
  | S754_zero _ => Ok 0
  | S754_infinity _ => Raise OverflowError
  | S754_nan => Raise ValueError
  | S754_finite s m e =>
      let magnitude := Z.shiftl (Z.pos m) e in
      Ok (if s then - magnitude else magnitude)
  end.

(** [int(payload[claim])] inside [try ... except ValueError: raise e]:
    a [TypeError] or an [OverflowError] is not caught. *)
Definition int_claim (on_value_error : exn) (j : json) : result Z :=
  match j with
  | JInt z => Ok z
  | JBool b => Ok (if b then 1 else 0)
  | JFloat f =>
      try_value_error (int_of_float f) on_value_error
  | JStr s => of_option on_value_error (int_of_str s)
  | JNull | JArr _ | JObj _ => Raise TypeError
  end.

(** The claims are whole seconds; [now] is the instant
    [datetime.now(tz=timezone.utc)] returns, whose [timestamp()] they are
    compared with. *)
Definition validate_iat (payload : jobject) (now : Z) : result unit :=
  match payload !! "iat" with
  | None => Ok tt
  | Some j =>
      let? iat := int_claim InvalidIssuedAtError j in
      if now <? iat * second then Raise ImmatureSignatureError else Ok tt
  end%result.

Definition validate_nbf (payload : jobject) (now : Z) : result unit :=
  match payload !! "nbf" with
  | None => Ok tt
  | Some j =>
      let? nbf := int_claim DecodeError j in
      if now <? nbf * second then Raise ImmatureSignatureError else Ok tt
  end%result.

Definition validate_exp (payload : jobject) (now : Z) : result unit :=
  match payload !! "exp" with
  | None => Ok tt
  | Some j =>
      let? exp := int_claim DecodeError j in
      if exp * second <=? now then Raise ExpiredSignatureError else Ok tt
  end%result.

(** No audience is configured: a token naming one is refused. *)
Definition validate_aud (payload : jobject) : result unit :=
  match payload !! "aud" with
  | None => Ok tt
  | Some a => if truthy a then Raise InvalidAudienceError else Ok tt
  end.

Definition validate_str_claim (claim : string) (e : exn) (payload : jobject)
  : result unit :=
  match payload !! claim with
  | None | Some (JStr _) => Ok tt
  | Some _ => Raise e
  end.

(** [PyJWT._validate_claims] with the default options, no required claim,
    no leeway, no issuer, audience or subject to match. *)
Definition validate_claims (payload : jobject) (now : Z) : result unit :=
  (let? _ := validate_iat payload now in
   let? _ := validate_nbf payload now in
   let? _ := validate_exp payload now in
   let? _ := validate_aud payload in
   let? _ := validate_str_claim "sub" InvalidSubjectError payload in
   validate_str_claim "jti" InvalidJTIError payload)%result.

(** [jwt.decode(token, key, algorithms=algorithms)] at the instant [now], in
    microseconds. *)
Definition jwt_decode (now : Z) (token key : string)
    (algorithms : list string) : result jobject :=
  (let? (header, payload, signing_input, signature) := jws_load token in
   let? _ :=
     jws_verify_signature signing_input header signature key algorithms in
   let? payload := of_option DecodeError (json_loads payload) in
   let? _ := validate_claims payload now in
   Ok payload)%result.

End PyJWT.

(** ** [try ... except] *)

(** The [except] clauses of a [try], in order: the class test of each and
    what its body returns. *)
Fixpoint except {A} (e : exn) (clauses : list ((exn -> bool) * result A))
  : result A :=
  match clauses with
  | [] => Raise e
  | (caught, handler) :: rest => if caught e then handler else except e rest
  end.

(** The body's value, or that of the first clause that catches what the body
    raises. *)
Definition try_except {A} (body : result A)
    (clauses : list ((exn -> bool) * result A)) : result A :=
  match body with
  | Ok a => Ok a
  | Raise e => except e clauses
  end.

(** ** src/core/security.py *)

Module TokenPayload.
(** [class TokenPayload(BaseModel)] *)
Record t : Type := mk {
  sub : string;
  email : option string;
  exp : option Z;
  iat : option Z;
}.
End TokenPayload.

Module AuthenticatedUser.
Section Model.
Context `{U : UuidLib}.
(** [class AuthenticatedUser(BaseModel)] *)
Record t : Type := mk {
  id : UUID;
  email : option string;
}.
End Model.
Arguments t {U}.
Arguments mk {U} id email.
Arguments id {U} _.
Arguments email {U} _.
End AuthenticatedUser.

Section Pydantic.
Context `{C : Coercions}.

(** A required [str] field: a string and nothing else. *)
Definition field_str (v : option json) : result string :=
  match v with
  | Some (JStr s) => Ok s
  | _ => Raise ValidationError
  end.

(** An [Optional[str] = None] field. *)
Definition field_optional_str (v : option json) : result (option string) :=
  match v with
  | None | Some JNull => Ok None
  | Some (JStr s) => Ok (Some s)
  | Some _ => Raise ValidationError
  end.

(** An [Optional[datetime] = None] field: a string, an integer or a float
    that pydantic can read as an instant; a boolean, a list or a dict is
    refused. *)
Definition field_optional_datetime (v : option json) : result (option Z) :=
  match v with
  | None | Some JNull => Ok None
  | Some (JInt z) => Some <$> of_option ValidationError (datetime_of_int z)
  | Some (JFloat f) => Some <$> of_option ValidationError (datetime_of_float f)
  | Some (JStr s) => Some <$> of_option ValidationError (datetime_of_str s)
  | Some _ => Raise ValidationError
  end.

(** [TokenPayload] built from the payload's keys; keys the model does not
    declare are ignored. *)
Definition TokenPayload_init (payload : jobject) : result TokenPayload.t :=
  (let? sub := field_str (payload !! "sub") in
   let? email := field_optional_str (payload !! "email") in
   let? exp := field_optional_datetime (payload !! "exp") in
   let? iat := field_optional_datetime (payload !! "iat") in
   Ok (TokenPayload.mk sub email exp iat))%result.

End Pydantic.

Section Security.
Context `{J : Jose} `{U : UuidLib} `{C : Coercions}.

(** [settings.BETTER_AUTH_SECRET] *)
Variable BETTER_AUTH_SECRET : string.

Definition ALGORITHM : string := "HS256".

Definition decode_token (now : Z) (token : string)
  : result (option TokenPayload.t) :=
  try_except
    (let? payload := jwt_decode now token BETTER_AUTH_SECRET [ALGORITHM] in
     let? p := TokenPayload_init payload in
     Ok (Some p))%result
    [ (is_ExpiredSignatureError, Ok None);
      (is_InvalidTokenError, Ok None) ].

Definition get_user_from_token (now : Z) (token : string)
  : result (option AuthenticatedUser.t) :=
  (let? payload := decode_token now token in
   match payload with
   | None => Ok None
   | Some payload =>
       try_except
         (let? user_id :=
            of_option ValueError (UUID_of_str (TokenPayload.sub payload)) in
          Ok (Some (AuthenticatedUser.mk user_id (TokenPayload.email payload))))
         [ (fun e => is_ValueError e || is_TypeError e, Ok None) ]
   end)%result.

(** ** src/api/auth.py: token issuance *)

(** [timedelta(days=d)]. *)
Definition timedelta_days (d : Z) : Z := d * 86400 * second.

(** [calendar.timegm(d.utctimetuple())], by which [jwt.encode] turns a
    [datetime] claim into whole seconds: the microseconds are dropped. *)
Definition timegm (d : Z) : Z := d / second.

(** [create_access_token(user_id, email, name)]; [now_exp] and [now_iat] are
    the two readings of [datetime.utcnow()] the call makes, in that order. *)
Definition create_access_token (now_exp now_iat : Z)
    (user_id email name : string) : result string :=
  let expire := now_exp + timedelta_days 7 in
  let payload : jobject :=
    <["sub" := JStr user_id]>
      (<["email" := JStr email]>
         (<["name" := JStr name]>
            (<["exp" := JInt (timegm expire)]>
               (<["iat" := JInt (timegm now_iat)]> ∅)))) in
  jwt_encode payload BETTER_AUTH_SECRET "HS256".

End Security.

(** ** passlib: [CryptContext(schemes=["bcrypt"], deprecated="auto")] *)

(** The bcrypt primitive and its modular-crypt text form. *)
Class Bcrypt : Type := {
  (* the checksum of a secret of at most 72 bytes under a salt *)
  bcrypt_raw : string -> string -> string;
  (* "$2b$" rounds "$" salt checksum, and its parser *)
  bcrypt_to_string : string -> string -> string;
  bcrypt_from_string : string -> option (string * string);
  bcrypt_from_to_string salt chk :
    bcrypt_from_string (bcrypt_to_string salt chk) = Some (salt, chk);
  bcrypt_to_string_ident salt chk :
    String.prefix "$2b$" (bcrypt_to_string salt chk) = true;
}.

Section Passlib.
Context `{B : Bcrypt}.

(** The identifiers by which the context recognises a bcrypt hash. *)
Definition bcrypt_idents : list string :=
  ["$2$"; "$2a$"; "$2x$"; "$2y$"; "$2b$"].

Definition bcrypt_identify (hash : string) : bool :=
  existsb (fun ident => String.prefix ident hash) bcrypt_idents.

(** bcrypt reads the first 72 bytes of the secret; the rest is ignored. *)
Definition truncate72 (secret : string) : string :=
  String.substring 0 72 secret.

(** [len(secret)] of a [str]: the bytes of its encoding that start a
    character (all but the continuation bytes 128 to 191). *)
Definition is_continuation (c : ascii) : bool :=
  let n := nat_of_ascii c in (Nat.leb 128 n && Nat.ltb n 192)%bool.

Fixpoint str_len (s : string) : nat :=
  match s with
  | EmptyString => O
  | String c r => if is_continuation c then str_len r else S (str_len r)
  end.

Definition MAX_PASSWORD_SIZE : nat := 4096.

(** [passlib.utils.handlers.validate_secret]. *)
Definition validate_secret (secret : string) : result unit :=
  if Nat.ltb MAX_PASSWORD_SIZE (str_len secret) then Raise PasswordSizeError
  else Ok tt.

(** [_BNULL in secret] *)
Fixpoint has_null (secret : string) : bool :=
  match secret with
  | EmptyString => false
  | String c r => Ascii.eqb c "000" || has_null r
  end.

(** [bcrypt._calc_checksum]: a secret with a NUL byte is refused. *)
Definition calc_checksum (salt secret : string) : result string :=
  if has_null secret then Raise NullPasswordError
  else Ok (bcrypt_raw salt (truncate72 secret)).

(** The digest of a secret under a salt. *)
Definition bcrypt_digest (salt secret : string) : string :=
  bcrypt_to_string salt (bcrypt_raw salt (truncate72 secret)).

(** [pwd_context.hash(secret)] once [validate_secret] has returned and the
    salt is drawn. *)
Definition pwd_context_hash (salt secret : string) : result string :=
  (let? checksum := calc_checksum salt secret in
   Ok (bcrypt_to_string salt checksum))%result.

(** [pwd_context.verify(secret, hash)]: a hash no scheme identifies raises
    [UnknownHashError]; of an identified hash the secret's size is checked,
    then the hash is parsed, which raises a [ValueError] (or one of its
    subclasses) when it fails; the checksum is then recomputed under the
    salt of the hash, a NUL byte in the secret being refused, and
    compared. *)
Definition pwd_context_verify (secret hash : string) : result bool :=
  if bcrypt_identify hash then
    (let? _ := validate_secret secret in
     let? (salt, chk) := of_option ValueError (bcrypt_from_string hash) in
     let? checksum := calc_checksum salt secret in
     Ok (String.eqb checksum chk))%result
  else Raise UnknownHashError.

(** A second argument that is a bcrypt digest. *)
Definition is_bcrypt_digest (hash : string) : bool :=
  bcrypt_identify hash && bool_decide (is_Some (bcrypt_from_string hash)).

(** A secret the context accepts: at most 4096 characters, no NUL byte. *)
Definition secret_ok (secret : string) : bool :=
  Nat.leb (str_len secret) MAX_PASSWORD_SIZE && negb (has_null secret).

End Passlib.

(** ** [str.strip]

    The whitespace of ASCII: tab to carriage return, the four separators 28
    to 31 and the space.  Whitespace beyond ASCII, which [str.strip] removes
    as well, is left in place. *)

Definition is_space (c : ascii) : bool :=
  let n := nat_of_ascii c in
  (Nat.eqb n 32 || (Nat.leb 9 n && Nat.leb n 13)
   || (Nat.leb 28 n && Nat.leb n 31))%bool.

Fixpoint lstrip (s : string) : string :=
  match s with
  | EmptyString => EmptyString
  | String c r => if is_space c then lstrip r else s
  end.

Fixpoint rstrip (s : string) : string :=
  match s with
  | EmptyString => EmptyString
  | String c r =>
      match rstrip r with
      | EmptyString => if is_space c then EmptyString else String c EmptyString
      | r' => String c r'
      end
  end.

Definition strip (s : string) : string := rstrip (lstrip s).

(** ** Request and record models *)

Module UserCreate.
(** [class UserCreate(BaseModel)] *)
Record t : Type := mk { email : string; password : string; name : string }.
End UserCreate.

Module UserLogin.
(** [class UserLogin(BaseModel)] *)
Record t : Type := mk { email : string; password : string }.
End UserLogin.

Module UserRecord.
(** A value of [users_db]: the dict with keys [id], [email], [name],
    [hashed_password] and [created_at]. *)
Record t : Type := mk {
  id : string;
  email : string;
  name : string;
  hashed_password : string;
  created_at : Z;
}.
End UserRecord.

Module TaskCreate.
(** [class TaskCreate(TaskBase)] *)
Record t : Type := mk { title : string; description : option string }.
End TaskCreate.

Module TaskUpdate.
(** [class TaskUpdate(SQLModel)] *)
Record t : Type := mk {
  title : option string;
  description : option string;
}.
End TaskUpdate.

Module Task.
Section Model.
Context `{U : UuidLib}.
(** [class Task(TaskBase, table=True)] *)
Record t : Type := mk {
  id : UUID;
  user_id : UUID;
  title : string;
  description : option string;
  is_completed : bool;
  created_at : Z;
  updated_at : Z;
}.
End Model.
Arguments t {U}.
Arguments mk {U} _ _ _ _ _ _ _.
Arguments id {U} _.
Arguments user_id {U} _.
Arguments title {U} _.
Arguments description {U} _.
Arguments is_completed {U} _.
Arguments created_at {U} _.
Arguments updated_at {U} _.
End Task.

Section Models.
Context `{U : UuidLib}.

(** [class UserResponse(BaseModel)] *)
Record UserResponse : Type := {
  ur_id : UUID;
  ur_email : string;
  ur_name : string;
}.

(** [class TokenResponse(BaseModel)] *)
Record TokenResponse : Type := {
  access_token : string;
  token_type : string;
  user : UserResponse;
}.

(** Statements executed against the tasks table. *)
Inductive statement : Type := Select | Insert | Update | Delete.

(** What a request leaves in the trace: two ghost events, [PasswordHashed],
    recorded when [hash_password] is called, and [AccessGranted], recorded
    when [verify_user_access] returns normally, and the statements the task
    service executes. *)
Inductive event : Type :=
  | PasswordHashed
  | AccessGranted (url_user_id : UUID) (current_user : AuthenticatedUser.t)
  | TaskStore (stmt : statement).

(** The process and its environment: the in-memory [users_db], the tasks
    table, the clock, the random source (UUIDs and salts, by draw number)
    and the trace. *)
Record world : Type := {
  users_db : gmap string UserRecord.t;
  tasks : list Task.t;
  clock : Z;
  random_uuid : nat -> UUID;
  random_salt : nat -> string;
  draws : nat;
  trace : list event;
}.

Definition M (A : Type) : Type := world -> result A * world.

Definition ret {A} (a : A) : M A := fun w => (Ok a, w).

Definition raise {A} (e : exn) : M A := fun w => (Raise e, w).

Definition bind {A B} (m : M A) (k : A -> M B) : M B :=
  fun w =>
    match m w with
    | (Ok a, w') => k a w'
    | (Raise e, w') => (Raise e, w')
    end.

(** A call that raises or returns without touching the world. *)
Definition lift {A} (r : result A) : M A := fun w => (r, w).

Definition utcnow : M Z := fun w => (Ok (clock w), w).

Definition next_draw (w : world) : world :=
  {| users_db := users_db w; tasks := tasks w; clock := clock w;
     random_uuid := random_uuid w; random_salt := random_salt w;
     draws := S (draws w); trace := trace w |}.

Definition uuid4 : M UUID :=
  fun w => (Ok (random_uuid w (draws w)), next_draw w).

Definition gensalt : M string :=
  fun w => (Ok (random_salt w (draws w)), next_draw w).

Definition emit (e : event) : M unit :=
  fun w =>
    (Ok tt,
     {| users_db := users_db w; tasks := tasks w; clock := clock w;
        random_uuid := random_uuid w; random_salt := random_salt w;
        draws := draws w; trace := trace w ++ [e] |}).

Definition get_users_db : M (gmap string UserRecord.t) :=
  fun w => (Ok (users_db w), w).

Definition set_users_db (db : gmap string UserRecord.t) : M unit :=
  fun w =>
    (Ok tt,
     {| users_db := db; tasks := tasks w; clock := clock w;
        random_uuid := random_uuid w; random_salt := random_salt w;
        draws := draws w; trace := trace w |}).

Definition get_tasks_table : M (list Task.t) := fun w => (Ok (tasks w), w).

Definition set_tasks_table (rows : list Task.t) : M unit :=
  fun w =>
    (Ok tt,
     {| users_db := users_db w; tasks := rows; clock := clock w;
        random_uuid := random_uuid w; random_salt := random_salt w;
        draws := draws w; trace := trace w |}).

End Models.

Declare Scope m_scope.
Delimit Scope m_scope with M.
Notation "x <~ m ;; k" := (bind m (fun x => k))
  (at level 100, m at next level, right associativity) : m_scope.
Notation "m ;;; k" := (bind m (fun _ => k))
  (at level 100, right associativity) : m_scope.

Open Scope m_scope.

(** ** src/api/auth.py *)

(** The dict [signup] returns. *)
Record SignupResponse : Type := { message : string; user_id : string }.

Section Auth.
Context `{J : Jose} `{U : UuidLib} `{C : Coercions} `{B : Bcrypt}
  `{L : Unicode}.

(** [settings.BETTER_AUTH_SECRET] *)
Variable BETTER_AUTH_SECRET : string.

(** [pwd_context.hash] checks the size of the secret, draws a salt and
    computes the digest. *)
Definition hash_password (password : string) : M string :=
  emit PasswordHashed ;;;
  lift (validate_secret password) ;;;
  salt <~ gensalt ;;
  lift (pwd_context_hash salt password).

Definition verify_password (plain_password hashed_password : string)
  : result bool :=
  pwd_context_verify plain_password hashed_password.

Definition signup (user_data : UserCreate.t) : M SignupResponse :=
  let email_lower := lower (UserCreate.email user_data) in
  db <~ get_users_db ;;
  if bool_decide (is_Some (db !! email_lower)) then
    raise (HTTPException 400 "DUPLICATE_EMAIL" "Email already registered" [])
  else
    u <~ uuid4 ;;
    let user_id := str_of_UUID u in
    hashed <~ hash_password (UserCreate.password user_data) ;;
    now <~ utcnow ;;
    db <~ get_users_db ;;
    set_users_db
      (<[email_lower :=
           UserRecord.mk user_id email_lower (UserCreate.name user_data)
             hashed now]> db) ;;;
    ret {| message := "User created successfully"; user_id := user_id |}.

Definition signin (credentials : UserLogin.t) : M TokenResponse :=
  let email_lower := lower (UserLogin.email credentials) in
  db <~ get_users_db ;;
  match db !! email_lower with
  | None =>
      raise (HTTPException 401 "INVALID_CREDENTIALS"
               "Invalid email or password" [])
  | Some user =>
      verified <~ lift (verify_password (UserLogin.password credentials)
                          (UserRecord.hashed_password user)) ;;
      if negb verified then
        raise (HTTPException 401 "INVALID_CREDENTIALS"
                 "Invalid email or password" [])
      else
        now_exp <~ utcnow ;;
        now_iat <~ utcnow ;;
        access_token <~ lift (create_access_token BETTER_AUTH_SECRET
                                now_exp now_iat
                                (UserRecord.id user) (UserRecord.email user)
                                (UserRecord.name user)) ;;
        (* UserResponse(id=user["id"], ...) parses the text into a UUID *)
        id <~ lift (of_option ValidationError
                      (UUID_of_str (UserRecord.id user))) ;;
        ret {| access_token := access_token;
               token_type := "bearer";
               user := {| ur_id := id;
                          ur_email := UserRecord.email user;
                          ur_name := UserRecord.name user |} |}
  end.

(** ** src/api/deps.py *)

Definition verify_user_access (url_user_id : UUID)
    (current_user : AuthenticatedUser.t) : result unit :=
  if bool_decide (url_user_id <> AuthenticatedUser.id current_user) then
    Raise (HTTPException 404 "NOT_FOUND" "Resource not found" [])
  else Ok tt.

(** ** src/core/middleware.py

    [credentials] is what [HTTPBearer(auto_error=False)] extracts: the bearer
    token of the Authorization header, if any. *)

Definition get_current_user (credentials : option string)
  : M AuthenticatedUser.t :=
  match credentials with
  | None =>
      raise (HTTPException 401 "AUTHENTICATION_REQUIRED"
               "Authentication required" [("WWW-Authenticate", "Bearer")])
  | Some token =>
      now <~ utcnow ;;
      user <~ lift (get_user_from_token BETTER_AUTH_SECRET now token) ;;
      match user with
      | None =>
          raise (HTTPException 401 "INVALID_TOKEN" "Invalid or expired token"
                   [("WWW-Authenticate", "Bearer")])
      | Some user => ret user
      end
  end.

Definition get_optional_user (credentials : option string)
  : M (option AuthenticatedUser.t) :=
  match credentials with
  | None => ret None
  | Some token =>
      now <~ utcnow ;;
      lift (get_user_from_token BETTER_AUTH_SECRET now token)
  end.

End Auth.

(** ** src/services/task_service.py

    The session is the tasks table of the world; each statement executed
    against it is recorded in the trace. *)

Module task_service.
Section TaskService.
Context `{U : UuidLib}.

(** [ORDER BY created_at DESC], by insertion. *)
Fixpoint insert_desc (t : Task.t) (rows : list Task.t) : list Task.t :=
  match rows with
  | [] => [t]
  | r :: rest =>
      if Task.created_at r <? Task.created_at t then t :: rows
      else r :: insert_desc t rest
  end.

Definition order_by_created_at_desc (rows : list Task.t) : list Task.t :=
  foldr insert_desc [] rows.

Definition status_matches (status_filter : option string) (t : Task.t)
  : bool :=
  match status_filter with
  | Some f =>
      if String.eqb f "pending" then negb (Task.is_completed t)
      else if String.eqb f "completed" then Task.is_completed t
      else true
  | None => true
  end.

Definition owned_by (user_id : UUID) (t : Task.t) : bool :=
  bool_decide (Task.user_id t = user_id).

Definition has_id (task_id : UUID) (t : Task.t) : bool :=
  bool_decide (Task.id t = task_id).

Definition get_tasks (user_id : UUID) (status_filter : option string)
  : M (list Task.t) :=
  rows <~ get_tasks_table ;;
  emit (TaskStore Select) ;;;
  ret (order_by_created_at_desc
         (List.filter
            (fun t => owned_by user_id t && status_matches status_filter t)
            rows)).

(** [scalar_one_or_none()]: ids are primary keys, so at most one row. *)
Definition get_task (task_id user_id : UUID) : M (option Task.t) :=
  rows <~ get_tasks_table ;;
  emit (TaskStore Select) ;;;
  ret (List.find (fun t => has_id task_id t && owned_by user_id t) rows).

(** [session.refresh(task)]: the row is read back. *)
Definition refresh (task : Task.t) : M Task.t :=
  emit (TaskStore Select) ;;; ret task.

Definition create_task (user_id : UUID) (task_data : TaskCreate.t)
  : M Task.t :=
  id <~ uuid4 ;;
  created_at <~ utcnow ;;
  updated_at <~ utcnow ;;
  let task :=
    Task.mk id user_id
      (strip (TaskCreate.title task_data))
      (match TaskCreate.description task_data with
       | Some d => if String.eqb d "" then None else Some (strip d)
       | None => None
       end)
      false created_at updated_at in
  rows <~ get_tasks_table ;;
  set_tasks_table (rows ++ [task]) ;;;
  emit (TaskStore Insert) ;;;
  refresh task.

(** Committing a changed row: the row with its id is replaced. *)
Definition commit_row (task : Task.t) : M unit :=
  rows <~ get_tasks_table ;;
  set_tasks_table
    (map (fun r => if has_id (Task.id task) r then task else r) rows) ;;;
  emit (TaskStore Update).

Definition update_task (task : Task.t) (task_data : TaskUpdate.t)
  : M Task.t :=
  let title :=
    match TaskUpdate.title task_data with
    | Some t => strip t
    | None => Task.title task
    end in
  let description :=
    match TaskUpdate.description task_data with
    | Some d => if String.eqb (strip d) "" then None else Some (strip d)
    | None => Task.description task
    end in
  now <~ utcnow ;;
  let task :=
    Task.mk (Task.id task) (Task.user_id task) title description
      (Task.is_completed task) (Task.created_at task) now in
  commit_row task ;;;
  refresh task.

Definition toggle_task_completion (task : Task.t) : M Task.t :=
  now <~ utcnow ;;
  let task :=
    Task.mk (Task.id task) (Task.user_id task) (Task.title task)
      (Task.description task) (negb (Task.is_completed task))
      (Task.created_at task) now in
  commit_row task ;;;
  refresh task.

Definition delete_task (task : Task.t) : M unit :=
  rows <~ get_tasks_table ;;
  set_tasks_table
    (List.filter (fun r => negb (has_id (Task.id task) r)) rows) ;;;
  emit (TaskStore Delete).

End TaskService.
End task_service.

(** ** src/api/tasks.py *)

Section Tasks.
Context `{J : Jose} `{U : UuidLib} `{C : Coercions}.

(** [settings.BETTER_AUTH_SECRET] *)
Variable BETTER_AUTH_SECRET : string.

(** The call of [verify_user_access] in an endpoint: it raises, or returns
    and the ghost event is recorded. *)
Definition check_user_access (user_id : UUID)
    (current_user : AuthenticatedUser.t) : M unit :=
  lift (verify_user_access user_id current_user) ;;;
  emit (AccessGranted user_id current_user).

Definition task_not_found : exn :=
  HTTPException 404 "NOT_FOUND" "Task not found" [].

Definition get_tasks (user_id : UUID) (current_user : AuthenticatedUser.t)
    (status : option string) : M (list Task.t) :=
  check_user_access user_id current_user ;;;
  tasks <~ task_service.get_tasks user_id status ;;
  ret tasks.

Definition create_task (user_id : UUID) (task_data : TaskCreate.t)
    (current_user : AuthenticatedUser.t) : M Task.t :=
  check_user_access user_id current_user ;;;
  task <~ task_service.create_task user_id task_data ;;
  ret task.

Definition get_task (user_id task_id : UUID)
    (current_user : AuthenticatedUser.t) : M Task.t :=
  check_user_access user_id current_user ;;;
  task <~ task_service.get_task task_id user_id ;;
  match task with
  | None => raise task_not_found
  | Some task => ret task
  end.

Definition update_task (user_id task_id : UUID) (task_data : TaskUpdate.t)
    (current_user : AuthenticatedUser.t) : M Task.t :=
  check_user_access user_id current_user ;;;
  task <~ task_service.get_task task_id user_id ;;
  match task with
  | None => raise task_not_found
  | Some task =>
      updated_task <~ task_service.update_task task task_data ;;
      ret updated_task
  end.

Definition delete_task (user_id task_id : UUID)
    (current_user : AuthenticatedUser.t) : M unit :=
  check_user_access user_id current_user ;;;
  task <~ task_service.get_task task_id user_id ;;
  match task with
  | None => raise task_not_found
  | Some task => task_service.delete_task task ;;; ret tt
  end.

Definition toggle_task_completion (user_id task_id : UUID)
    (current_user : AuthenticatedUser.t) : M Task.t :=
  check_user_access user_id current_user ;;;
  task <~ task_service.get_task task_id user_id ;;
  match task with
  | None => raise task_not_found
  | Some task =>
      updated_task <~ task_service.toggle_task_completion task ;;
      ret updated_task
  end.

(** The protected requests of the tasks router. *)
Inductive task_request : Type :=
  | GetTasks (user_id : UUID) (status : option string)
  | CreateTask (user_id : UUID) (task_data : TaskCreate.t)
  | GetTask (user_id task_id : UUID)
  | UpdateTask (user_id task_id : UUID) (task_data : TaskUpdate.t)
  | DeleteTask (user_id task_id : UUID)
  | ToggleTaskCompletion (user_id task_id : UUID).

Definition request_user_id (req : task_request) : UUID :=
  match req with
  | GetTasks user_id _ | CreateTask user_id _ | GetTask user_id _
  | UpdateTask user_id _ _ | DeleteTask user_id _
  | ToggleTaskCompletion user_id _ => user_id
  end.

Inductive task_response : Type :=
  | TaskList (tasks : list Task.t)
  | TaskItem (task : Task.t)
  | NoContent.

(** The endpoint a request is routed to. *)
Definition endpoint (req : task_request) (current_user : AuthenticatedUser.t)
  : M task_response :=
  match req with
  | GetTasks user_id status =>
      r <~ get_tasks user_id current_user status ;; ret (TaskList r)
  | CreateTask user_id task_data =>
      r <~ create_task user_id task_data current_user ;; ret (TaskItem r)
  | GetTask user_id task_id =>
      r <~ get_task user_id task_id current_user ;; ret (TaskItem r)
  | UpdateTask user_id task_id task_data =>
      r <~ update_task user_id task_id task_data current_user ;;
      ret (TaskItem r)
  | DeleteTask user_id task_id =>
      delete_task user_id task_id current_user ;;; ret NoContent
  | ToggleTaskCompletion user_id task_id =>
      r <~ toggle_task_completion user_id task_id current_user ;;
      ret (TaskItem r)
  end.

(** A request to the router: the dependency [get_current_user] is resolved
    from the bearer credentials, then the endpoint runs. *)
Definition handle (credentials : option string) (req : task_request)
  : M task_response :=
  current_user <~ get_current_user BETTER_AUTH_SECRET credentials ;;
  endpoint req current_user.

End Tasks.

(** * Properties *)

(** ** Splitting a compact serialization *)

Lemma rsplit_last_dot_no_dot s : has_dot s = false -> rsplit_last_dot s = None.
Proof.
  induction s as [|c r IH]; simpl; [done|].
  intros [Hc Hr]%orb_false_elim. by rewrite (IH Hr), Hc.
Qed.

Lemma append_nil_l (b : string) : "" ++ b = b.
Proof. reflexivity. Qed.

Lemma append_cons c (a b : string) : String c a ++ b = String c (a ++ b).
Proof. reflexivity. Qed.

Lemma rsplit_last_dot_cons a b :
  has_dot b = false -> rsplit_last_dot (a ++ String "." b) = Some (a, b).
Proof.
  intros Hb. induction a as [|c r IH].
  - rewrite append_nil_l. simpl. by rewrite (rsplit_last_dot_no_dot _ Hb).
  - rewrite append_cons. simpl. by rewrite IH.
Qed.

Lemma rsplit_last_dot_app a b :
  has_dot b = false -> rsplit_last_dot (a ++ "." ++ b) = Some (a, b).
Proof. exact (rsplit_last_dot_cons a b). Qed.

Lemma split_first_dot_cons a b :
  has_dot a = false -> split_first_dot (a ++ String "." b) = Some (a, b).
Proof.
  induction a as [|c r IH].
  - intros _. by rewrite append_nil_l.
  - intros [Hc Hr]%orb_false_elim.
    rewrite append_cons. simpl. by rewrite Hc, (IH Hr).
Qed.

Lemma split_first_dot_app a b :
  has_dot a = false -> split_first_dot (a ++ "." ++ b) = Some (a, b).
Proof. exact (split_first_dot_cons a b). Qed.

Lemma rsplit_last_dot_has_dot s :
  rsplit_last_dot s = None -> has_dot s = false.
Proof.
  induction s as [|c r IH]; simpl; [done|].
  destruct (rsplit_last_dot r) as [[a b]|]; [done|].
  destruct (is_dot c); [done|]. intros _. by rewrite IH.
Qed.

(** Lookups in a map written as a chain of insertions. *)
Ltac map_lookup :=
  repeat first
    [ rewrite lookup_insert_eq
    | rewrite lookup_insert_ne by done
    | rewrite lookup_empty ].

Section PyJWT_facts.
Context `{J : Jose} `{C : Coercions}.

(** What [jwt.encode] writes, [PyJWS._load] reads back. *)
Lemma jws_load_encode (header payload : jobject) (signature : string) :
  jws_load (jws_signing_input header payload ++ "."
              ++ base64url_encode signature)
  = Ok (header, json_dumps payload, jws_signing_input header payload,
        signature).
Proof.
  unfold jws_load.
  rewrite rsplit_last_dot_app by apply base64url_encode_no_dot.
  unfold jws_signing_input.
  rewrite split_first_dot_app by apply base64url_encode_no_dot.
  rewrite !base64url_decode_encode. simpl.
  by rewrite json_loads_dumps.
Qed.

Lemma jws_verify_signature_HS256 si header key :
  header !! "alg" = Some (JStr "HS256") ->
  jws_verify_signature si header (hmac_sha256 key si) key ["HS256"] = Ok tt.
Proof.
  intros Halg. unfold jws_verify_signature. rewrite Halg. simpl.
  by rewrite String.eqb_refl.
Qed.

(** A header naming another algorithm never passes the one-entry list. *)
Lemma jws_verify_signature_other_alg si header signature key :
  header !! "alg" <> Some (JStr "HS256") ->
  jws_verify_signature si header signature key ["HS256"]
  = Raise InvalidAlgorithmError.
Proof.
  intros Halg. unfold jws_verify_signature.
  destruct (header !! "alg") as [alg|]; [|done].
  destruct (negb (truthy alg) || negb (alg_in alg ["HS256"])) eqn:E; [done|].
  apply orb_false_elim in E as [_ E]. apply negb_false_iff in E.
  destruct alg as [|b|z|f|a|items|members]; simpl in E; try done.
  apply bool_decide_eq_true_1 in E.
  apply list_elem_of_singleton in E. by subst.
Qed.

(** The token [jwt.encode] returns for HS256 decodes to its payload whenever
    the claims validate. *)
Lemma jwt_decode_encode now payload key :
  validate_claims payload now = Ok tt ->
  exists token,
    jwt_encode payload key "HS256" = Ok token /\
    jwt_decode now token key ["HS256"] = Ok payload.
Proof.
  intros Hv. eexists. split; [reflexivity|].
  unfold jwt_decode. simpl. rewrite jws_load_encode. simpl.
  rewrite jws_verify_signature_HS256 by done. simpl.
  rewrite json_loads_dumps. simpl. by rewrite Hv.
Qed.

Lemma jwt_decode_encode_invalid now payload key e token :
  validate_claims payload now = Raise e ->
  jwt_encode payload key "HS256" = Ok token ->
  jwt_decode now token key ["HS256"] = Raise e.
Proof.
  intros Hv [= <-].
  unfold jwt_decode. simpl. rewrite jws_load_encode. simpl.
  rewrite jws_verify_signature_HS256 by done. simpl.
  rewrite json_loads_dumps. simpl. by rewrite Hv.
Qed.

End PyJWT_facts.

(** A result that is a value or an [InvalidTokenError]: what [decode_token]
    turns into a value. *)
Definition token_error_only {A} (r : result A) : Prop :=
  match r with
  | Ok _ => True
  | Raise e => is_InvalidTokenError e = true
  end.

(** A claim value that [int()] converts or refuses with a [ValueError]:
    not [null], a list or a dict (on which it raises [TypeError]), nor an
    infinite float (on which it raises [OverflowError]). *)
Definition int_convertible (j : json) : Prop :=
  match j with
  | JNull | JArr _ | JObj _ | JFloat (S754_infinity _) => False
  | _ => True
  end.

(** The claim is absent or [int_convertible]. *)
Definition claim_numeric (payload : jobject) (claim : string) : Prop :=
  match payload !! claim with
  | Some j => int_convertible j
  | None => True
  end.

Definition time_claims_numeric (payload : jobject) : Prop :=
  claim_numeric payload "iat" /\
  claim_numeric payload "nbf" /\
  claim_numeric payload "exp".

Section Claims_facts.
Context `{J : Jose} `{C : Coercions}.

Lemma token_error_only_bind {A B} (r : result A) (k : A -> result B) :
  token_error_only r -> (forall a, r = Ok a -> token_error_only (k a)) ->
  token_error_only (rbind r k).
Proof. destruct r; simpl; auto. Qed.

Lemma int_claim_error e j :
  is_InvalidTokenError e = true -> int_convertible j ->
  token_error_only (int_claim e j).
Proof.
  intros He Hj. destruct j as [|b|z|f|s|items|members]; simpl in *; try done.
  - by destruct f.
  - by destruct (int_of_str s).
Qed.

Lemma jws_load_error token : token_error_only (jws_load token).
Proof.
  unfold jws_load.
  destruct (rsplit_last_dot token) as [[si cs]|]; [|done].
  destruct (split_first_dot si) as [[hs ps]|]; [|done].
  destruct (base64url_decode hs) as [hd|]; [simpl|done].
  destruct (json_loads hd); [simpl|done].
  destruct (base64url_decode ps); [simpl|done].
  by destruct (base64url_decode cs).
Qed.

Lemma jws_verify_signature_error si header signature key algorithms :
  token_error_only (jws_verify_signature si header signature key algorithms).
Proof.
  unfold jws_verify_signature.
  destruct (header !! "alg") as [alg|]; [|done].
  destruct (negb (truthy alg) || negb (alg_in alg algorithms)); [done|].
  destruct alg as [|b|z|f|a|items|members]; try done.
  destruct (get_algorithm_by_name a); [|done].
  by case String.eqb.
Qed.

Lemma validate_iat_error payload now :
  claim_numeric payload "iat" ->
  token_error_only (validate_iat payload now).
Proof.
  unfold claim_numeric, validate_iat. intros Hn.
  destruct (payload !! "iat") as [j|]; [|done].
  apply token_error_only_bind; [by apply int_claim_error|].
  intros. by case Z.ltb.
Qed.

Lemma validate_nbf_error payload now :
  claim_numeric payload "nbf" ->
  token_error_only (validate_nbf payload now).
Proof.
  unfold claim_numeric, validate_nbf. intros Hn.
  destruct (payload !! "nbf") as [j|]; [|done].
  apply token_error_only_bind; [by apply int_claim_error|].
  intros. by case Z.ltb.
Qed.

Lemma validate_exp_error payload now :
  claim_numeric payload "exp" ->
  token_error_only (validate_exp payload now).
Proof.
  unfold claim_numeric, validate_exp. intros Hn.
  destruct (payload !! "exp") as [j|]; [|done].
  apply token_error_only_bind; [by apply int_claim_error|].
  intros. by case Z.leb.
Qed.

Lemma validate_aud_error payload : token_error_only (validate_aud payload).
Proof.
  unfold validate_aud. destruct (payload !! "aud") as [j|]; [|done].
  by case truthy.
Qed.

Lemma validate_str_claim_error claim e payload :
  is_InvalidTokenError e = true ->
  token_error_only (validate_str_claim claim e payload).
Proof.
  intros He. unfold validate_str_claim. by destruct (payload !! claim) as [[]|].
Qed.

Create HintDb validate.
#[local] Hint Resolve validate_iat_error validate_nbf_error validate_exp_error
  validate_aud_error validate_str_claim_error : validate.

Ltac bind_step := apply token_error_only_bind; [|intros ? _].

Lemma validate_claims_error payload now :
  time_claims_numeric payload -> token_error_only (validate_claims payload now).
Proof.
  intros (Hiat & Hnbf & Hexp). unfold validate_claims.
  repeat bind_step; auto with validate.
Qed.

(** An [exp] that has passed is refused, whatever else validation finds. *)
Lemma validate_claims_expired payload now j e :
  claim_numeric payload "iat" -> claim_numeric payload "nbf" ->
  payload !! "exp" = Some j -> int_claim DecodeError j = Ok e ->
  e * second <= now ->
  exists err, validate_claims payload now = Raise err /\
              is_InvalidTokenError err = true.
Proof.
  intros Hiat Hnbf Hexp Hint Hle. unfold validate_claims.
  pose proof (validate_iat_error payload now Hiat) as Hi.
  destruct (validate_iat payload now) as [[]|e1]; [simpl|by exists e1].
  pose proof (validate_nbf_error payload now Hnbf) as Hn.
  destruct (validate_nbf payload now) as [[]|e2]; [simpl|by exists e2].
  unfold validate_exp. rewrite Hexp, Hint. simpl.
  rewrite (proj2 (Z.leb_le (e * second) now) Hle). simpl. by eexists.
Qed.

(** A [sub] that is not a string is refused. *)
Lemma validate_claims_sub_not_str payload now j :
  time_claims_numeric payload ->
  payload !! "sub" = Some j -> (forall s, j <> JStr s) ->
  exists err, validate_claims payload now = Raise err /\
              is_InvalidTokenError err = true.
Proof.
  intros Hd Hsub Hj.
  pose proof (validate_claims_error payload now Hd) as Hv.
  destruct (validate_claims payload now) as [[]|err] eqn:E; [|by exists err].
  exfalso. unfold validate_claims in E.
  destruct (validate_iat payload now) as [[]|]; [simpl in E|done].
  destruct (validate_nbf payload now) as [[]|]; [simpl in E|done].
  destruct (validate_exp payload now) as [[]|]; [simpl in E|done].
  destruct (validate_aud payload) as [[]|]; [simpl in E|done].
  unfold validate_str_claim in E at 1. rewrite Hsub in E.
  destruct j; try done. by eapply Hj.
Qed.

End Claims_facts.

(** ** Token verification *)

(** The compact serialization of a header and payload signed with [key]. *)
Definition signed `{J : Jose} (header payload : jobject) (key : string)
  : string :=
  jws_signing_input header payload ++ "."
    ++ base64url_encode (hmac_sha256 key (jws_signing_input header payload)).

Section Security_facts.
Context `{J : Jose} `{U : UuidLib} `{C : Coercions}.
Variable secret : string.

Lemma decode_token_jwt_error now token e :
  jwt_decode now token secret [ALGORITHM] = Raise e ->
  is_InvalidTokenError e = true ->
  decode_token secret now token = Ok None.
Proof.
  intros Hd He. unfold decode_token. rewrite Hd. simpl.
  destruct (is_ExpiredSignatureError e); simpl; [done|]. by rewrite He.
Qed.

Lemma field_optional_datetime_raise v e :
  field_optional_datetime v = Raise e -> e = ValidationError.
Proof.
  unfold field_optional_datetime, fmap, result_fmap, of_option.
  intros E. repeat (case_match; simpl in E; try congruence).
Qed.

Lemma TokenPayload_init_raise payload e :
  TokenPayload_init payload = Raise e -> e = ValidationError.
Proof.
  unfold TokenPayload_init. intros E.
  destruct (field_str (payload !! "sub")) as [sub|e1] eqn:E1; simpl in E.
  2:{ unfold field_str in E1. repeat case_match; congruence. }
  destruct (field_optional_str (payload !! "email")) as [em|e2] eqn:E2;
    simpl in E.
  2:{ unfold field_optional_str in E2. repeat case_match; congruence. }
  destruct (field_optional_datetime (payload !! "exp")) as [ex|e3] eqn:E3;
    simpl in E.
  2:{ injection E as <-. by apply (field_optional_datetime_raise _ _ E3). }
  destruct (field_optional_datetime (payload !! "iat")) as [ia|e4] eqn:E4;
    simpl in E; [done|].
  injection E as <-. by apply (field_optional_datetime_raise _ _ E4).
Qed.

Lemma decode_token_decoded now token payload :
  jwt_decode now token secret [ALGORITHM] = Ok payload ->
  decode_token secret now token
  = match TokenPayload_init payload with
    | Ok p => Ok (Some p)
    | Raise e => Raise e
    end.
Proof.
  intros Hd. unfold decode_token. rewrite Hd. simpl.
  destruct (TokenPayload_init payload) as [p|e] eqn:E; simpl; [done|].
  by rewrite (TokenPayload_init_raise _ _ E).
Qed.

Lemma get_user_from_token_jwt_error now token e :
  jwt_decode now token secret [ALGORITHM] = Raise e ->
  is_InvalidTokenError e = true ->
  get_user_from_token secret now token = Ok None.
Proof.
  intros Hd He. unfold get_user_from_token.
  by rewrite (decode_token_jwt_error _ _ _ Hd He).
Qed.

Lemma get_user_from_token_decoded now token payload p :
  jwt_decode now token secret [ALGORITHM] = Ok payload ->
  TokenPayload_init payload = Ok p ->
  get_user_from_token secret now token
  = Ok (match UUID_of_str (TokenPayload.sub p) with
        | Some user_id =>
            Some (AuthenticatedUser.mk user_id (TokenPayload.email p))
        | None => None
        end).
Proof.
  intros Hd Hp. unfold get_user_from_token.
  rewrite (decode_token_decoded _ _ _ Hd), Hp. simpl.
  by destruct (UUID_of_str (TokenPayload.sub p)).
Qed.

(** A payload the token library accepts and the payload model refuses
    escapes as pydantic's error. *)
Lemma get_user_from_token_model_error now token payload e :
  jwt_decode now token secret [ALGORITHM] = Ok payload ->
  TokenPayload_init payload = Raise e ->
  get_user_from_token secret now token = Raise ValidationError.
Proof.
  intros Hd Hp. unfold get_user_from_token.
  rewrite (decode_token_decoded _ _ _ Hd), Hp.
  by rewrite (TokenPayload_init_raise _ _ Hp).
Qed.

(** [jwt.decode] in terms of the parts [PyJWS._load] returns. *)
Lemma jwt_decode_loaded now token header pbytes si sg :
  jws_load token = Ok (header, pbytes, si, sg) ->
  jwt_decode now token secret [ALGORITHM]
  = (let? _ := jws_verify_signature si header sg secret [ALGORITHM] in
     let? payload := of_option DecodeError (json_loads pbytes) in
     let? _ := validate_claims payload now in
     Ok payload)%result.
Proof. intros Hl. unfold jwt_decode. by rewrite Hl. Qed.

(** A payload signed under the secret with the configured algorithm decodes
    to what claim validation makes of it. *)
Lemma jwt_decode_signed now payload :
  jwt_decode now (signed (jws_header ALGORITHM) payload secret) secret
    [ALGORITHM]
  = (let? _ := validate_claims payload now in Ok payload)%result.
Proof.
  unfold signed. rewrite (jwt_decode_loaded _ _ _ _ _ _ (jws_load_encode _ _ _)).
  rewrite jws_verify_signature_HS256 by done. simpl.
  by rewrite json_loads_dumps.
Qed.

(** The claims [create_access_token] signs, [t] and [t'] being the two
    readings of the clock. *)
Definition access_token_claims (t t' : Z) (user_id email name : string)
  : jobject :=
  <["sub" := JStr user_id]>
    (<["email" := JStr email]>
       (<["name" := JStr name]>
          (<["exp" := JInt (timegm (t + timedelta_days 7))]>
             (<["iat" := JInt (timegm t')]> ∅)))).

Lemma create_access_token_signed t t' user_id email name :
  create_access_token secret t t' user_id email name
  = Ok (signed (jws_header ALGORITHM)
          (access_token_claims t t' user_id email name) secret).
Proof. reflexivity. Qed.

(** Seven days after [t], in whole seconds: seven days after the second in
    which [t] falls. *)
Lemma timegm_expire t : timegm (t + timedelta_days 7) = timegm t + 7 * 86400.
Proof.
  unfold timegm, timedelta_days. apply Z.div_add. by unfold second.
Qed.

Lemma timegm_le t : timegm t * second <= t.
Proof.
  unfold timegm. rewrite Z.mul_comm. apply Z.mul_div_le. by unfold second.
Qed.

Lemma timegm_bounds t b :
  0 <= t <= b * second -> 0 <= timegm t <= b.
Proof.
  intros [Hlo Hhi]. unfold timegm. split.
  - apply Z.div_pos; [done|by unfold second].
  - apply Z.div_le_upper_bound; [by unfold second|]. lia.
Qed.

Lemma access_token_claims_valid t t' now user_id email name :
  t' <= now < (timegm t + 7 * 86400) * second ->
  validate_claims (access_token_claims t t' user_id email name) now = Ok tt.
Proof.
  intros [Hlo Hhi]. pose proof (timegm_le t') as Hle.
  unfold validate_claims, validate_iat, validate_nbf, validate_exp,
    validate_aud, validate_str_claim, access_token_claims.
  map_lookup. simpl.
  rewrite (proj2 (Z.ltb_ge now (timegm t' * second))) by lia. simpl.
  rewrite timegm_expire.
  by rewrite (proj2 (Z.leb_gt _ now)) by lia.
Qed.

Lemma access_token_claims_expired t t' now user_id email name :
  (timegm t + 7 * 86400) * second <= now ->
  exists err,
    validate_claims (access_token_claims t t' user_id email name) now
    = Raise err /\
    is_InvalidTokenError err = true.
Proof.
  intros Hhi.
  apply (validate_claims_expired _ _ (JInt (timegm (t + timedelta_days 7)))
           (timegm (t + timedelta_days 7))).
  - unfold claim_numeric, access_token_claims. by map_lookup.
  - unfold claim_numeric, access_token_claims. by map_lookup.
  - unfold access_token_claims. by map_lookup.
  - done.
  - by rewrite timegm_expire.
Qed.

(** The instants whose whole seconds pydantic reads as seconds. *)
Definition seconds_range (t : Z) : Prop := 0 <= t <= 20000000000 * second.

Lemma access_token_claims_model t t' user_id email name :
  seconds_range (t + timedelta_days 7) -> seconds_range t' ->
  TokenPayload_init (access_token_claims t t' user_id email name)
  = Ok (TokenPayload.mk user_id (Some email)
          (Some (timegm (t + timedelta_days 7) * 1000000))
          (Some (timegm t' * 1000000))).
Proof.
  intros Hexp Hiat.
  unfold TokenPayload_init, access_token_claims. map_lookup. simpl.
  rewrite !datetime_of_int_seconds by by apply timegm_bounds.
  done.
Qed.

(** The token [create_access_token] returns is accepted from the second
    reading of the clock until seven days after the second of the first. *)
Lemma create_access_token_accepted (u : UUID) (e n : string) (t t' now : Z) :
  seconds_range (t + timedelta_days 7) -> seconds_range t' ->
  t' <= now < (timegm t + 7 * 86400) * second ->
  exists token,
    create_access_token secret t t' (str_of_UUID u) e n = Ok token /\
    get_user_from_token secret now token
    = Ok (Some (AuthenticatedUser.mk u (Some e))).
Proof.
  intros Hexp Hiat Hnow.
  destruct (jwt_decode_encode now
              (access_token_claims t t' (str_of_UUID u) e n) secret)
    as (tok & Henc & Hdec).
  { by apply access_token_claims_valid. }
  exists tok. split; [exact Henc|].
  rewrite (get_user_from_token_decoded _ _ _ _ Hdec
             (access_token_claims_model _ _ _ _ _ Hexp Hiat)).
  simpl. by rewrite UUID_of_str_of_UUID.
Qed.

Lemma create_access_token_refused (user_id e n : string) (t t' now : Z) :
  (timegm t + 7 * 86400) * second <= now ->
  exists token,
    create_access_token secret t t' user_id e n = Ok token /\
    get_user_from_token secret now token = Ok None.
Proof.
  intros Hnow.
  destruct (access_token_claims_expired t t' now user_id e n Hnow)
    as (err & Hv & Herr).
  eexists. split; [reflexivity|].
  apply (get_user_from_token_jwt_error _ _ err); [|done].
  by eapply jwt_decode_encode_invalid; [|reflexivity].
Qed.


Lemma jws_verify_signature_mismatch si header sg :
  hmac_sha256 secret si <> sg ->
  exists e, jws_verify_signature si header sg secret [ALGORITHM] = Raise e /\
            is_InvalidTokenError e = true.
Proof.
  intros Hne.
  pose proof (jws_verify_signature_error si header sg secret [ALGORITHM]) as He.
  destruct (jws_verify_signature si header sg secret [ALGORITHM])
    as [[]|e] eqn:E; [exfalso|by exists e].
  unfold jws_verify_signature in E.
  destruct (header !! "alg") as [alg|]; [|done].
  destruct (negb (truthy alg) || negb (alg_in alg [ALGORITHM])); [done|].
  destruct alg as [|b|z|f|a|items|members]; try done.
  unfold get_algorithm_by_name in E.
  destruct (String.eqb a "HS256"); [|done].
  destruct (String.eqb (hmac_sha256 secret si) sg) eqn:Eq; [|done].
  by apply String.eqb_eq in Eq.
Qed.

(** The fields of [TokenPayload] other than [sub] fit their types. *)
Definition optional_fields_valid (payload : jobject) : Prop :=
  ~ raises (field_optional_str (payload !! "email")) /\
  ~ raises (field_optional_datetime (payload !! "exp")) /\
  ~ raises (field_optional_datetime (payload !! "iat")).

(** The failure cases of token verification at instant [now], each with
    what it takes for the failure to be the first thing the code meets. *)
Inductive verify_failure (now : Z) (token : string) : Prop :=
  (* fewer than three segments, or a segment that is not base64url, or a
     header that is not a JSON object *)
  | malformed_structure e :
      jws_load token = Raise e -> verify_failure now token
  (* a payload segment that is not a JSON object *)
  | malformed_payload header pbytes si sg :
      jws_load token = Ok (header, pbytes, si, sg) ->
      json_loads pbytes = None ->
      verify_failure now token
  (* the signature is not the HMAC of the signing input under the secret *)
  | signature_mismatch header pbytes si sg :
      jws_load token = Ok (header, pbytes, si, sg) ->
      hmac_sha256 secret si <> sg ->
      verify_failure now token
  (* the exp claim is an instant that has passed; iat and nbf, which are
     validated before it, are values that int() converts or refuses with a
     ValueError *)
  | expired_exp header pbytes si sg payload j exp :
      jws_load token = Ok (header, pbytes, si, sg) ->
      json_loads pbytes = Some payload ->
      claim_numeric payload "iat" ->
      claim_numeric payload "nbf" ->
      payload !! "exp" = Some j ->
      int_claim DecodeError j = Ok exp ->
      exp * second <= now ->
      verify_failure now token
  (* the sub claim is not the text of a UUID; the time claims are values
     that int() converts or refuses with a ValueError, and the other fields
     of the payload fit TokenPayload *)
  | sub_not_identifier header pbytes si sg payload sub :
      jws_load token = Ok (header, pbytes, si, sg) ->
      json_loads pbytes = Some payload ->
      time_claims_numeric payload ->
      optional_fields_valid payload ->
      payload !! "sub" = Some sub ->
      (forall s, sub = JStr s -> UUID_of_str s = None) ->
      verify_failure now token.

Lemma TokenPayload_init_fields payload s :
  optional_fields_valid payload ->
  payload !! "sub" = Some (JStr s) ->
  exists p, TokenPayload_init payload = Ok p /\ TokenPayload.sub p = s.
Proof.
  intros (He & Hx & Hi) Hs. unfold TokenPayload_init. rewrite Hs. simpl.
  destruct (field_optional_str _); [simpl|by destruct He].
  destruct (field_optional_datetime (payload !! "exp"));
    [simpl|by destruct Hx].
  destruct (field_optional_datetime (payload !! "iat"));
    [simpl|by destruct Hi].
  by eexists.
Qed.


(** C7. A token whose header names any algorithm other than the configured
    one (or none at all) is refused, under every secret and at every
    instant: the list of accepted algorithms is the constant [[ALGORITHM]]. *)
Theorem other_algorithm_rejected (now : Z) (token : string)
    header pbytes si sg :
  jws_load token = Ok (header, pbytes, si, sg) ->
  header !! "alg" <> Some (JStr ALGORITHM) ->
  get_user_from_token secret now token = Ok None.
Proof.
  intros Hl Halg.
  apply (get_user_from_token_jwt_error _ _ InvalidAlgorithmError); [|done].
  rewrite (jwt_decode_loaded _ _ _ _ _ _ Hl).
  by rewrite (jws_verify_signature_other_alg si header sg secret Halg).
Qed.

(** Acceptance, read backwards. *)
Lemma get_user_from_token_accepted now token user :
  get_user_from_token secret now token = Ok (Some user) ->
  exists payload p,
    jwt_decode now token secret [ALGORITHM] = Ok payload /\
    TokenPayload_init payload = Ok p /\
    UUID_of_str (TokenPayload.sub p) = Some (AuthenticatedUser.id user) /\
    TokenPayload.email p = AuthenticatedUser.email user.
Proof.
  intros Hu.
  destruct (jwt_decode now token secret [ALGORITHM]) as [c|e] eqn:Hd.
  - destruct (TokenPayload_init c) as [p|e] eqn:Hp.
    + rewrite (get_user_from_token_decoded _ _ _ _ Hd Hp) in Hu.
      exists c, p. destruct (UUID_of_str (TokenPayload.sub p)); [|done].
      by injection Hu as <-.
    + unfold get_user_from_token in Hu.
      by rewrite (decode_token_decoded _ _ _ Hd), Hp in Hu.
  - unfold get_user_from_token, decode_token in Hu. rewrite Hd in Hu.
    simpl in Hu.
    by destruct (is_ExpiredSignatureError e), (is_InvalidTokenError e) eqn:E;
      simpl in Hu; rewrite ?E in Hu.
Qed.

(** Without an [exp] claim, claims that validate keep validating. *)
Lemma validate_claims_later payload t0 now :
  payload !! "exp" = None ->
  validate_claims payload t0 = Ok tt ->
  t0 <= now ->
  validate_claims payload now = Ok tt.
Proof.
  intros Hexp Hv Hle. unfold validate_claims in *.
  assert (validate_iat payload now = Ok tt) as ->.
  { destruct (validate_iat payload t0) as [[]|] eqn:E; [|done].
    unfold validate_iat in *. destruct (payload !! "iat"); [|done].
    destruct (int_claim _ _) as [iat|]; [simpl in *|done].
    destruct (Z.ltb_spec t0 (iat * second)); [done|].
    by rewrite (proj2 (Z.ltb_ge now (iat * second))) by lia. }
  destruct (validate_iat payload t0) as [[]|]; [simpl in *|done].
  assert (validate_nbf payload now = Ok tt) as ->.
  { destruct (validate_nbf payload t0) as [[]|] eqn:E; [|done].
    unfold validate_nbf in *. destruct (payload !! "nbf"); [|done].
    destruct (int_claim _ _) as [nbf|]; [simpl in *|done].
    destruct (Z.ltb_spec t0 (nbf * second)); [done|].
    by rewrite (proj2 (Z.ltb_ge now (nbf * second))) by lia. }
  destruct (validate_nbf payload t0) as [[]|]; [simpl in *|done].
  unfold validate_exp in *. by rewrite Hexp in *.
Qed.

(** Claims naming the subject and, optionally, the email: no [exp]. *)
Definition claims_without_exp (user_id : string) (email : option string)
  : jobject :=
  <["sub" := JStr user_id]>
    (match email with
     | Some e => <["email" := JStr e]> ∅
     | None => ∅
     end).

(** C10. A token signed under the server's secret that carries no [exp]
    claim (and possibly no [email] claim) is accepted at every instant, and
    any token without an [exp] claim that is accepted at some instant is
    accepted, with the same identity, at every later instant: it never
    expires. *)
Theorem token_without_exp_never_expires :
  (forall (u : UUID) (email : option string) (now : Z),
     exists token,
       jwt_encode (claims_without_exp (str_of_UUID u) email) secret ALGORITHM
       = Ok token /\
       get_user_from_token secret now token
       = Ok (Some (AuthenticatedUser.mk u email))) /\
  (forall token header pbytes si sg payload t0 now user,
     jws_load token = Ok (header, pbytes, si, sg) ->
     json_loads pbytes = Some payload ->
     payload !! "exp" = None ->
     get_user_from_token secret t0 token = Ok (Some user) ->
     t0 <= now ->
     get_user_from_token secret now token = Ok (Some user)).
Proof.
  split.
  - intros u email now.
    destruct (jwt_decode_encode now
                (claims_without_exp (str_of_UUID u) email) secret)
      as (tok & Henc & Hdec).
    { unfold validate_claims, validate_iat, validate_nbf, validate_exp,
        validate_aud, validate_str_claim, claims_without_exp.
      destruct email; by map_lookup. }
    exists tok. split; [done|].
    assert (TokenPayload_init (claims_without_exp (str_of_UUID u) email)
            = Ok (TokenPayload.mk (str_of_UUID u) email None None)) as Hp.
    { unfold TokenPayload_init, claims_without_exp.
      destruct email; by map_lookup. }
    rewrite (get_user_from_token_decoded _ _ _ _ Hdec Hp). simpl.
    by rewrite UUID_of_str_of_UUID.
  - intros token h pb si sg c t0 now user Hl Hp Hexp Hacc Hle.
    destruct (get_user_from_token_accepted _ _ _ Hacc)
      as (c' & p & Hd & Hinit & Hid & Hem).
    rewrite (jwt_decode_loaded _ _ _ _ _ _ Hl) in Hd.
    destruct (jws_verify_signature si h sg secret [ALGORITHM])
      as [[]|] eqn:Hsig; [simpl in Hd|done].
    rewrite Hp in Hd. simpl in Hd.
    destruct (validate_claims c t0) as [[]|] eqn:Hv; [simpl in Hd|done].
    injection Hd as <-.
    assert (jwt_decode now token secret [ALGORITHM] = Ok c) as Hd'.
    { rewrite (jwt_decode_loaded _ _ _ _ _ _ Hl), Hsig. simpl.
      rewrite Hp. simpl.
      by rewrite (validate_claims_later _ _ _ Hexp Hv Hle). }
    rewrite (get_user_from_token_decoded _ _ _ _ Hd' Hinit), Hid, Hem.
    by destruct user.
Qed.

(** The limit of failing closed: a payload that the token library accepts
    but the payload model refuses (here, one without [sub]) makes
    [get_user_from_token] raise pydantic's error; only a holder of the
    secret can sign such a token. *)
Remark payload_model_error_escapes (now : Z) :
  exists token,
    jwt_encode ∅ secret ALGORITHM = Ok token /\
    get_user_from_token secret now token = Raise ValidationError.
Proof.
  destruct (jwt_decode_encode now ∅ secret) as (tok & Henc & Hdec); [done|].
  exists tok. split; [done|].
  unfold get_user_from_token.
  by rewrite (decode_token_decoded _ _ _ Hdec).
Qed.

(** Claims with a subject and an [email] that is a number. *)
Definition claims_with_numeric_email (sub : string) : jobject :=
  <["sub" := JStr sub]> (<["email" := JInt 5]> ∅).

Lemma numeric_email_escapes (now : Z) (sub : string) :
  get_user_from_token secret now
    (signed (jws_header ALGORITHM) (claims_with_numeric_email sub) secret)
  = Raise ValidationError.
Proof.
  apply (get_user_from_token_model_error _ _ (claims_with_numeric_email sub)
           ValidationError).
  - rewrite jwt_decode_signed.
    unfold validate_claims, validate_iat, validate_nbf, validate_exp,
      validate_aud, validate_str_claim, claims_with_numeric_email.
    by map_lookup.
  - unfold TokenPayload_init, claims_with_numeric_email. by map_lookup.
Qed.

(** Likewise an [exp] claim beyond the year 9999, of a token that has not
    expired. *)
Remark exp_beyond_datetime_escapes (now : Z) (sub : string) :
  now < 253402300800000 * second ->
  get_user_from_token secret now
    (signed (jws_header ALGORITHM)
       (<["sub" := JStr sub]> (<["exp" := JInt 253402300800000]> ∅)) secret)
  = Raise ValidationError.
Proof.
  intros Hnow.
  eapply (get_user_from_token_model_error _ _ _ ValidationError).
  - rewrite jwt_decode_signed.
    unfold validate_claims, validate_iat, validate_nbf, validate_exp,
      validate_aud, validate_str_claim.
    map_lookup. simpl.
    by rewrite (proj2 (Z.leb_gt _ now)) by lia.
  - unfold TokenPayload_init. map_lookup. simpl.
    by rewrite datetime_of_int_large.
Qed.

End Security_facts.



(** ** Passwords *)

Section Passlib_facts.
Context `{B : Bcrypt}.

Lemma bcrypt_identify_to_string salt chk :
  bcrypt_identify (bcrypt_to_string salt chk) = true.
Proof.
  unfold bcrypt_identify, bcrypt_idents. simpl.
  rewrite bcrypt_to_string_ident. by rewrite !orb_true_r.
Qed.

Lemma secret_ok_true secret :
  secret_ok secret = true ->
  validate_secret secret = Ok tt /\ has_null secret = false.
Proof.
  unfold secret_ok, validate_secret. intros [Hlen Hnull]%andb_prop.
  apply Nat.leb_le in Hlen. apply negb_true_iff in Hnull.
  by rewrite (proj2 (Nat.ltb_ge _ _) Hlen).
Qed.

Lemma secret_ok_false secret :
  secret_ok secret = false ->
  validate_secret secret = Raise PasswordSizeError \/
  validate_secret secret = Ok tt /\ has_null secret = true.
Proof.
  unfold secret_ok, validate_secret. intros H.
  destruct (Nat.ltb_spec MAX_PASSWORD_SIZE (str_len secret)) as [Hlt|Hge];
    [by left|right].
  apply Nat.leb_le in Hge. rewrite Hge in H. simpl in H.
  by apply negb_false_iff in H.
Qed.

Lemma pwd_context_hash_ok salt secret :
  has_null secret = false ->
  pwd_context_hash salt secret = Ok (bcrypt_digest salt secret).
Proof. intros H. unfold pwd_context_hash, calc_checksum. by rewrite H. Qed.

Lemma pwd_context_hash_null salt secret :
  has_null secret = true ->
  pwd_context_hash salt secret = Raise NullPasswordError.
Proof. intros H. unfold pwd_context_hash, calc_checksum. by rewrite H. Qed.

(** Verification against a digest the context produced recomputes the
    checksum of the first 72 bytes under the digest's salt. *)
Lemma pwd_context_verify_digest salt p1 p2 :
  secret_ok p1 = true ->
  pwd_context_verify p1 (bcrypt_digest salt p2)
  = Ok (String.eqb (bcrypt_raw salt (truncate72 p1))
          (bcrypt_raw salt (truncate72 p2))).
Proof.
  intros [Hv Hn]%secret_ok_true.
  unfold pwd_context_verify, bcrypt_digest, calc_checksum.
  by rewrite bcrypt_identify_to_string, Hv, bcrypt_from_to_string, Hn.
Qed.

Lemma bcrypt_digest_salt_inj salt1 salt2 p1 p2 :
  bcrypt_digest salt1 p1 = bcrypt_digest salt2 p2 -> salt1 = salt2.
Proof.
  unfold bcrypt_digest. intros H.
  apply (f_equal bcrypt_from_string) in H.
  rewrite !bcrypt_from_to_string in H. congruence.
Qed.

Lemma pwd_context_verify_same_prefix salt p1 p2 :
  secret_ok p1 = true ->
  truncate72 p1 = truncate72 p2 ->
  pwd_context_verify p1 (bcrypt_digest salt p2) = Ok true.
Proof.
  intros Hok E. by rewrite pwd_context_verify_digest, E, String.eqb_refl.
Qed.

Lemma is_bcrypt_digest_false plain hashed :
  is_bcrypt_digest hashed = false ->
  exists e, pwd_context_verify plain hashed = Raise e /\
            is_ValueError e = true /\
            (bcrypt_identify hashed = false -> e = UnknownHashError).
Proof.
  unfold is_bcrypt_digest, pwd_context_verify.
  destruct (bcrypt_identify hashed); simpl; [|by eexists].
  destruct (validate_secret plain) as [[]|e] eqn:Ev; simpl.
  2:{ unfold validate_secret in Ev. case_match; [|done].
      injection Ev as <-. by eexists. }
  destruct (bcrypt_from_string hashed) as [[salt chk]|]; [|by eexists].
  intros H. apply bool_decide_eq_false_1 in H. by destruct H.
Qed.

Lemma is_bcrypt_digest_verify plain hashed :
  is_bcrypt_digest hashed = true -> secret_ok plain = true ->
  exists b, pwd_context_verify plain hashed = Ok b.
Proof.
  unfold is_bcrypt_digest. intros [Hi Hp]%andb_prop [Hv Hn]%secret_ok_true.
  apply bool_decide_eq_true_1 in Hp as [[salt chk] Hp].
  unfold pwd_context_verify, calc_checksum. rewrite Hi, Hv, Hp, Hn.
  by eexists.
Qed.

Lemma is_bcrypt_digest_refuse plain hashed :
  is_bcrypt_digest hashed = true -> secret_ok plain = false ->
  pwd_context_verify plain hashed = Raise PasswordSizeError \/
  pwd_context_verify plain hashed = Raise NullPasswordError.
Proof.
  unfold is_bcrypt_digest. intros [Hi Hp]%andb_prop Hbad.
  apply bool_decide_eq_true_1 in Hp as [[salt chk] Hp].
  unfold pwd_context_verify, calc_checksum. rewrite Hi, Hp.
  destruct (secret_ok_false _ Hbad) as [->|[-> ->]]; [by left|by right].
Qed.

Lemma pwd_context_verify_returns plain hashed b :
  pwd_context_verify plain hashed = Ok b ->
  is_bcrypt_digest hashed = true /\ secret_ok plain = true.
Proof.
  intros Hv.
  destruct (is_bcrypt_digest hashed) eqn:Ed.
  - split; [done|]. destruct (secret_ok plain) eqn:Es; [done|].
    destruct (is_bcrypt_digest_refuse plain hashed Ed Es); congruence.
  - destruct (is_bcrypt_digest_false plain hashed Ed) as (e & He & _).
    congruence.
Qed.

End Passlib_facts.

(** Two passwords of 73 bytes that differ in the last byte only. *)
Definition long_password_a : string :=
  "aaaaaaaaaaaaaaaaaaaaaaaaaaaaaaaaaaaaaaaaaaaaaaaaaaaaaaaaaaaaaaaaaaaaaaaaa".
Definition long_password_b : string :=
  "aaaaaaaaaaaaaaaaaaaaaaaaaaaaaaaaaaaaaaaaaaaaaaaaaaaaaaaaaaaaaaaaaaaaaaaab".

Example long_passwords_length :
  String.length long_password_a = 73%nat /\
  String.length long_password_b = 73%nat /\
  long_password_a <> long_password_b /\
  truncate72 long_password_a = truncate72 long_password_b.
Proof. by repeat split. Qed.

(** A password of nine characters, the fifth a NUL byte. *)
Definition null_password : string := "pass" ++ String "000" "word".

Section Auth_facts.
Context `{J : Jose} `{U : UuidLib} `{C : Coercions} `{B : Bcrypt}
  `{L : Unicode}.
Variable secret : string.

(** The world [hash_password] leaves when it returns. *)
Definition hashed_world (w : world) : world :=
  next_draw (snd (emit PasswordHashed w)).

Lemma hash_password_run password (w : world) :
  secret_ok password = true ->
  hash_password password w
  = (Ok (bcrypt_digest (random_salt w (draws w)) password), hashed_world w).
Proof.
  intros [Hv Hn]%secret_ok_true.
  unfold hash_password, bind, lift, emit, gensalt. simpl.
  by rewrite Hv, (pwd_context_hash_ok _ _ Hn).
Qed.

Lemma hash_password_refuse password (w : world) :
  secret_ok password = false ->
  exists e w',
    hash_password password w = (Raise e, w') /\
    (e = PasswordSizeError \/ e = NullPasswordError) /\
    users_db w' = users_db w /\ tasks w' = tasks w /\ clock w' = clock w.
Proof.
  intros Hbad. unfold hash_password, bind, lift, emit, gensalt. simpl.
  destruct (secret_ok_false _ Hbad) as [->|[-> Hn]].
  - do 2 eexists. split; [reflexivity|]. by split; [left|].
  - rewrite (pwd_context_hash_null _ _ Hn).
    do 2 eexists. split; [reflexivity|]. by split; [right|].
Qed.



Definition invalid_credentials : exn :=
  HTTPException 401 "INVALID_CREDENTIALS" "Invalid email or password" [].

Lemma signin_run (c : UserLogin.t) (w : world) :
  signin secret c w
  = (match users_db w !! lower (UserLogin.email c) with
     | None => Raise invalid_credentials
     | Some user =>
         match verify_password (UserLogin.password c)
                 (UserRecord.hashed_password user) with
         | Raise e => Raise e
         | Ok false => Raise invalid_credentials
         | Ok true =>
             (let? access_token :=
                create_access_token secret (clock w) (clock w)
                  (UserRecord.id user) (UserRecord.email user)
                  (UserRecord.name user) in
              let? id :=
                of_option ValidationError (UUID_of_str (UserRecord.id user)) in
              Ok {| access_token := access_token;
                    token_type := "bearer";
                    user := {| ur_id := id;
                               ur_email := UserRecord.email user;
                               ur_name := UserRecord.name user |} |})%result
         end
     end, w).
Proof.
  unfold signin, bind, get_users_db, lift, utcnow.
  destruct (users_db w !! lower (UserLogin.email c)) as [user|]; [|done].
  destruct (verify_password _ _) as [[]|e]; simpl; [|done|done].
  by destruct (UUID_of_str (UserRecord.id user)).
Qed.


(** A login with a registered email and a password the context refuses
    raises the context's error, not the 401. *)
Lemma signin_refused_password (w : world) (c : UserLogin.t)
    (user : UserRecord.t) :
  users_db w !! lower (UserLogin.email c) = Some user ->
  is_bcrypt_digest (UserRecord.hashed_password user) = true ->
  secret_ok (UserLogin.password c) = false ->
  signin secret c w = (Raise PasswordSizeError, w) \/
  signin secret c w = (Raise NullPasswordError, w).
Proof.
  intros Hu Hd Hbad. rewrite signin_run, Hu. unfold verify_password.
  destruct (is_bcrypt_digest_refuse _ _ Hd Hbad) as [->| ->]; auto.
Qed.

Definition duplicate_email : exn :=
  HTTPException 400 "DUPLICATE_EMAIL" "Email already registered" [].

Lemma signup_duplicate (w : world) (d : UserCreate.t) :
  is_Some (users_db w !! lower (UserCreate.email d)) ->
  signup d w = (Raise duplicate_email, w).
Proof.
  intros H. unfold signup, bind, get_users_db.
  by rewrite bool_decide_eq_true_2.
Qed.

Lemma signup_fresh (w : world) (d : UserCreate.t) :
  users_db w !! lower (UserCreate.email d) = None ->
  secret_ok (UserCreate.password d) = true ->
  exists w',
    signup d w
    = (Ok {| message := "User created successfully";
             user_id := str_of_UUID (random_uuid w (draws w)) |}, w') /\
    users_db w'
    = <[lower (UserCreate.email d) :=
          UserRecord.mk (str_of_UUID (random_uuid w (draws w)))
            (lower (UserCreate.email d)) (UserCreate.name d)
            (bcrypt_digest (random_salt w (S (draws w)))
               (UserCreate.password d))
            (clock w)]> (users_db w) /\
    trace w' = (trace w ++ [PasswordHashed])%list /\
    tasks w' = tasks w /\ clock w' = clock w.
Proof.
  intros H Hok. eexists. unfold signup, bind, get_users_db.
  rewrite bool_decide_eq_false_2 by (rewrite H; by intros []).
  unfold uuid4. rewrite (hash_password_run _ _ Hok).
  simpl. by repeat split.
Qed.

(** A registration whose password the context refuses raises the context's
    error and stores nothing. *)
Lemma signup_refused (w : world) (d : UserCreate.t) :
  users_db w !! lower (UserCreate.email d) = None ->
  secret_ok (UserCreate.password d) = false ->
  exists e w',
    signup d w = (Raise e, w') /\
    (e = PasswordSizeError \/ e = NullPasswordError) /\
    users_db w' = users_db w /\ tasks w' = tasks w /\ clock w' = clock w.
Proof.
  intros H Hbad. unfold signup, bind, get_users_db.
  rewrite bool_decide_eq_false_2 by (rewrite H; by intros []).
  unfold uuid4.
  destruct (hash_password_refuse (UserCreate.password d) (next_draw w) Hbad)
    as (e & w' & -> & He & Hdb & Htasks & Hclock).
  by exists e, w'.
Qed.


End Auth_facts.

(** ** Access guard *)

Definition http_status (e : exn) : option Z :=
  match e with
  | HTTPException status_code _ _ _ => Some status_code
  | _ => None
  end.

Definition http_code (e : exn) : option string :=
  match e with
  | HTTPException _ code _ _ => Some code
  | _ => None
  end.

Definition access_denied : exn :=
  HTTPException 404 "NOT_FOUND" "Resource not found" [].

Section Trace_facts.
Context `{U : UuidLib}.

(** A computation only appends to the trace. *)
Definition extends {A} (m : M A) : Prop :=
  forall w, exists tr, trace (snd (m w)) = (trace w ++ tr)%list.

Lemma extends_ret {A} (a : A) : extends (ret a).
Proof. intros w. exists []. simpl. by rewrite app_nil_r. Qed.

Lemma extends_raise {A} e : extends (@raise U A e).
Proof. intros w. exists []. simpl. by rewrite app_nil_r. Qed.

Lemma extends_lift {A} (r : result A) : extends (lift r).
Proof. intros w. exists []. simpl. by rewrite app_nil_r. Qed.

Lemma extends_emit e : extends (emit e).
Proof. intros w. by exists [e]. Qed.

Lemma extends_utcnow : extends utcnow.
Proof. intros w. exists []. simpl. by rewrite app_nil_r. Qed.

Lemma extends_uuid4 : extends uuid4.
Proof. intros w. exists []. simpl. by rewrite app_nil_r. Qed.

Lemma extends_get_tasks_table : extends get_tasks_table.
Proof. intros w. exists []. simpl. by rewrite app_nil_r. Qed.

Lemma extends_set_tasks_table rows : extends (set_tasks_table rows).
Proof. intros w. exists []. simpl. by rewrite app_nil_r. Qed.

Lemma extends_bind {A B} (m : M A) (k : A -> M B) :
  extends m -> (forall a, extends (k a)) -> extends (bind m k).
Proof.
  intros Hm Hk w. unfold bind. destruct (Hm w) as [tr1 H1].
  destruct (m w) as [[a|e] w1]; simpl in *.
  - destruct (Hk a w1) as [tr2 H2]. exists (tr1 ++ tr2)%list.
    by rewrite H2, H1, app_assoc.
  - by exists tr1.
Qed.

Lemma bind_assoc {A B D} (m : M A) (k : A -> M B) (h : B -> M D) w :
  bind (bind m k) h w = bind m (fun a => bind (k a) h) w.
Proof. unfold bind. by destruct (m w) as [[a|e] w1]. Qed.

Lemma bind_ext {A B} (m : M A) (k k' : A -> M B) w :
  (forall a w1, k a w1 = k' a w1) -> bind m k w = bind m k' w.
Proof. intros H. unfold bind. by destruct (m w) as [[a|e] w1]. Qed.

End Trace_facts.

Create HintDb trace.
#[global] Hint Resolve extends_ret extends_raise extends_lift extends_emit
  extends_utcnow extends_uuid4 extends_get_tasks_table
  extends_set_tasks_table : trace.

Ltac extends_step :=
  first
    [ apply extends_bind; [|intros ?]
    | match goal with
      | |- extends (match ?x with _ => _ end) => destruct x
      end
    | solve [auto with trace] ].

Section Tasks_facts.
Context `{J : Jose} `{U : UuidLib} `{C : Coercions}.
Variable secret : string.

Lemma verify_user_access_allowed a (user : AuthenticatedUser.t) :
  a = AuthenticatedUser.id user -> verify_user_access a user = Ok tt.
Proof.
  intros ->. unfold verify_user_access.
  by rewrite bool_decide_eq_false_2 by (by intros []).
Qed.

Lemma verify_user_access_denied a (user : AuthenticatedUser.t) :
  a <> AuthenticatedUser.id user ->
  verify_user_access a user = Raise access_denied.
Proof.
  intros Hne. unfold verify_user_access. by rewrite bool_decide_eq_true_2.
Qed.

(** The services only append to the trace. *)
Lemma extends_service_get_tasks user_id status :
  extends (task_service.get_tasks user_id status).
Proof. unfold task_service.get_tasks. repeat extends_step. Qed.

Lemma extends_service_get_task task_id user_id :
  extends (task_service.get_task task_id user_id).
Proof. unfold task_service.get_task. repeat extends_step. Qed.

Lemma extends_service_create_task user_id task_data :
  extends (task_service.create_task user_id task_data).
Proof.
  unfold task_service.create_task, task_service.refresh.
  repeat extends_step.
Qed.

Lemma extends_service_update_task task task_data :
  extends (task_service.update_task task task_data).
Proof.
  unfold task_service.update_task, task_service.commit_row,
    task_service.refresh.
  repeat extends_step.
Qed.

Lemma extends_service_toggle task :
  extends (task_service.toggle_task_completion task).
Proof.
  unfold task_service.toggle_task_completion, task_service.commit_row,
    task_service.refresh.
  repeat extends_step.
Qed.

Lemma extends_service_delete_task task :
  extends (task_service.delete_task task).
Proof. unfold task_service.delete_task. repeat extends_step. Qed.

#[local] Hint Resolve extends_service_get_tasks extends_service_get_task
  extends_service_create_task extends_service_update_task
  extends_service_toggle extends_service_delete_task : trace.

(** What an endpoint does once the access check has returned. *)
Definition after_check (req : task_request) : M task_response :=
  match req with
  | GetTasks user_id status =>
      tasks <~ task_service.get_tasks user_id status ;; ret (TaskList tasks)
  | CreateTask user_id task_data =>
      task <~ task_service.create_task user_id task_data ;;
      ret (TaskItem task)
  | GetTask user_id task_id =>
      task <~ task_service.get_task task_id user_id ;;
      match task with
      | None => raise task_not_found
      | Some task => ret (TaskItem task)
      end
  | UpdateTask user_id task_id task_data =>
      task <~ task_service.get_task task_id user_id ;;
      match task with
      | None => raise task_not_found
      | Some task =>
          updated_task <~ task_service.update_task task task_data ;;
          ret (TaskItem updated_task)
      end
  | DeleteTask user_id task_id =>
      task <~ task_service.get_task task_id user_id ;;
      match task with
      | None => raise task_not_found
      | Some task => task_service.delete_task task ;;; ret NoContent
      end
  | ToggleTaskCompletion user_id task_id =>
      task <~ task_service.get_task task_id user_id ;;
      match task with
      | None => raise task_not_found
      | Some task =>
          updated_task <~ task_service.toggle_task_completion task ;;
          ret (TaskItem updated_task)
      end
  end.

Lemma extends_after_check req : extends (after_check req).
Proof. destruct req; simpl; repeat extends_step. Qed.

(** Every endpoint is the access check followed by the rest. *)
Lemma endpoint_check_first req current_user w :
  endpoint req current_user w
  = (check_user_access (request_user_id req) current_user ;;;
     after_check req) w.
Proof.
  destruct req; simpl;
    unfold get_tasks, create_task, get_task, update_task, delete_task,
      toggle_task_completion;
    rewrite bind_assoc; apply bind_ext; intros _ w1;
    rewrite bind_assoc; apply bind_ext; intros r w2;
    try reflexivity; destruct r; try reflexivity;
    by rewrite bind_assoc.
Qed.

Lemma endpoint_denied req current_user w :
  request_user_id req <> AuthenticatedUser.id current_user ->
  endpoint req current_user w = (Raise access_denied, w).
Proof.
  intros Hne. rewrite endpoint_check_first.
  unfold bind, check_user_access, bind, lift.
  by rewrite (verify_user_access_denied _ _ Hne).
Qed.

Lemma endpoint_granted req current_user w :
  request_user_id req = AuthenticatedUser.id current_user ->
  exists rest,
    trace (snd (endpoint req current_user w))
    = (trace w ++ AccessGranted (request_user_id req) current_user :: rest)%list.
Proof.
  intros Heq. rewrite endpoint_check_first.
  unfold bind at 1, check_user_access, bind at 1, lift.
  rewrite (verify_user_access_allowed _ _ Heq). simpl.
  match goal with
  | |- context [after_check req ?w1] =>
      destruct (extends_after_check req w1) as [rest Hrest];
      exists rest; rewrite Hrest; simpl
  end.
  by rewrite <- app_assoc.
Qed.

Lemma get_task_missing (user : AuthenticatedUser.t) task_id w :
  List.find (fun t => task_service.has_id task_id t
                      && task_service.owned_by (AuthenticatedUser.id user) t)
    (tasks w) = None ->
  fst (endpoint (GetTask (AuthenticatedUser.id user) task_id) user w)
  = Raise task_not_found.
Proof.
  intros Hfind. rewrite endpoint_check_first.
  unfold bind at 1, check_user_access, bind at 1, lift. simpl.
  rewrite (verify_user_access_allowed _ _ eq_refl). simpl.
  unfold bind, task_service.get_task, bind. simpl. by rewrite Hfind.
Qed.

(** C3. [verify_user_access a user] allows exactly when [a] is the id of
    [user].  A denial is the exception with status 404 and code NOT_FOUND,
    the status and code of the exception raised for a task that does not
    exist, never status 403; it is what every endpoint returns for a
    requested owner other than the caller. *)
Theorem ownership_check (a : UUID) (user : AuthenticatedUser.t) :
  (verify_user_access a user = Ok tt <-> a = AuthenticatedUser.id user) /\
  (a <> AuthenticatedUser.id user ->
     verify_user_access a user = Raise access_denied /\
     (forall req w,
        request_user_id req = a ->
        endpoint req user w = (Raise access_denied, w))) /\
  (forall task_id w,
     List.find (fun t => task_service.has_id task_id t
                         && task_service.owned_by (AuthenticatedUser.id user) t)
       (tasks w) = None ->
     fst (endpoint (GetTask (AuthenticatedUser.id user) task_id) user w)
     = Raise task_not_found) /\
  http_status access_denied = http_status task_not_found /\
  http_code access_denied = http_code task_not_found /\
  http_status access_denied <> Some 403.
Proof.
  split; [|split; [|split; [|done]]].
  - split; [|apply verify_user_access_allowed].
    destruct (decide (a = AuthenticatedUser.id user)) as [|Hne]; [done|].
    by rewrite (verify_user_access_denied _ _ Hne).
  - intros Hne. split; [by apply verify_user_access_denied|].
    intros req w <-. by apply endpoint_denied.
  - intros task_id w. apply get_task_missing.
Qed.

Lemma get_current_user_run credentials w :
  get_current_user secret credentials w
  = (match credentials with
     | None =>
         Raise (HTTPException 401 "AUTHENTICATION_REQUIRED"
                  "Authentication required" [("WWW-Authenticate", "Bearer")])
     | Some token =>
         match get_user_from_token secret (clock w) token with
         | Ok (Some user) => Ok user
         | Ok None =>
             Raise (HTTPException 401 "INVALID_TOKEN"
                      "Invalid or expired token"
                      [("WWW-Authenticate", "Bearer")])
         | Raise e => Raise e
         end
     end, w).
Proof.
  destruct credentials as [token|]; [|done].
  unfold get_current_user, bind, utcnow, lift.
  by destruct (get_user_from_token secret (clock w) token) as [[user|]|e].
Qed.

(** The request names, as owner, the identity its token verifies to. *)
Definition authorized (w : world) (credentials : option string)
    (req : task_request) (user : AuthenticatedUser.t) : Prop :=
  exists token,
    credentials = Some token /\
    get_user_from_token secret (clock w) token = Ok (Some user) /\
    request_user_id req = AuthenticatedUser.id user.

Lemma handle_unauthorized w credentials req :
  (forall user, ~ authorized w credentials req user) ->
  exists e, handle secret credentials req w = (Raise e, w).
Proof.
  intros Hno. unfold handle, bind. rewrite get_current_user_run.
  destruct credentials as [token|]; [|by eexists].
  destruct (get_user_from_token secret (clock w) token) as [[user|]|e] eqn:E;
    try by eexists.
  exists access_denied. apply endpoint_denied.
  intros Heq. apply (Hno user). by exists token.
Qed.

Lemma handle_authorized w credentials req user :
  authorized w credentials req user ->
  exists rest,
    trace (snd (handle secret credentials req w))
    = (trace w ++ AccessGranted (request_user_id req) user :: rest)%list.
Proof.
  intros (token & -> & Htok & Heq).
  unfold handle, bind. rewrite get_current_user_run, Htok.
  by apply endpoint_granted.
Qed.

(** C6. In the trace a protected task request leaves, every statement
    executed against the tasks table comes after the grant of the ownership
    check of the requested owner id against the identity that the request's
    token verifies to; a request without such a grant raises, executes no
    statement and leaves the world as it was. *)
Theorem store_access_guarded (w : world) (credentials : option string)
    (req : task_request) :
  exists tr,
    trace (snd (handle secret credentials req w)) = (trace w ++ tr)%list /\
    (forall pre stmt post,
       tr = (pre ++ TaskStore stmt :: post)%list ->
       exists user,
         authorized w credentials req user /\
         AccessGranted (request_user_id req) user ∈ pre) /\
    ((forall user, ~ authorized w credentials req user) ->
     tr = [] /\ raises (fst (handle secret credentials req w)) /\
     snd (handle secret credentials req w) = w).
Proof.
  assert ((exists user, authorized w credentials req user) \/
          (forall user, ~ authorized w credentials req user)) as [[user Ha]|Hno].
  { destruct credentials as [token|].
    2:{ right. by intros user (token & ? & _). }
    destruct (get_user_from_token secret (clock w) token) as [[user|]|e] eqn:E.
    - destruct (decide (request_user_id req = AuthenticatedUser.id user)).
      + left. exists user, token. by repeat split.
      + right. intros user' (token' & [= <-] & Htok & Heq).
        rewrite E in Htok. by injection Htok as <-.
    - right. intros user' (token' & [= <-] & Htok & _). congruence.
    - right. intros user' (token' & [= <-] & Htok & _). congruence. }
  - destruct (handle_authorized _ _ _ _ Ha) as [rest Hrest].
    eexists. split; [exact Hrest|]. split.
    + intros pre stmt post Hsplit. exists user. split; [done|].
      destruct pre as [|ev pre]; simpl in Hsplit; [done|].
      injection Hsplit as <- _. apply list_elem_of_here.
    + intros Hno. by destruct (Hno user).
  - destruct (handle_unauthorized _ _ _ Hno) as [e He].
    exists []. rewrite He. simpl. split; [by rewrite app_nil_r|]. split.
    + by intros [|? ?] ? ? ?.
    + done.
Qed.

End Tasks_facts.

(** * An implementation of the library interfaces

    A small, executable implementation of [Jose], [UuidLib], [Coercions] and
    [Bcrypt], at which the theorems are instantiated below.  Segments are
    written as the binary digits of the value's code. *)

Module Sample.

Fixpoint pos_to_bits (p : positive) : string :=
  match p with
  | xH => EmptyString
  | xO q => String "0" (pos_to_bits q)
  | xI q => String "1" (pos_to_bits q)
  end.

Fixpoint bits_to_pos (s : string) : option positive :=
  match s with
  | EmptyString => Some xH
  | String c r =>
      if Ascii.eqb c "0" then xO <$> bits_to_pos r
      else if Ascii.eqb c "1" then xI <$> bits_to_pos r
      else None
  end.

Lemma bits_to_pos_to_bits p : bits_to_pos (pos_to_bits p) = Some p.
Proof. induction p as [q IH|q IH|]; simpl; by rewrite ?IH. Qed.

Lemma pos_to_bits_no_dot p : has_dot (pos_to_bits p) = false.
Proof. induction p as [q IH|q IH|]; simpl; by rewrite ?IH. Qed.

Definition ser {A} `{Countable A} (a : A) : string := pos_to_bits (encode a).

Definition deser {A} `{Countable A} (s : string) : option A :=
  bits_to_pos s ≫= decode.

Lemma deser_ser {A} `{Countable A} (a : A) : deser (ser a) = Some a.
Proof.
  unfold deser, ser. rewrite bits_to_pos_to_bits. simpl. apply decode_encode.
Qed.

Definition jose : Jose :=
  {| base64url_encode := ser;
     base64url_decode := deser;
     json_dumps := ser;
     json_loads := deser;
     hmac_sha256 := fun key msg => key ++ msg;
     base64url_decode_encode := deser_ser;
     base64url_encode_no_dot := fun b => pos_to_bits_no_dot (encode b);
     json_loads_dumps := deser_ser |}.

Lemma hmac_key_head c1 r1 c2 r2 msg :
  c1 <> c2 ->
  hmac_sha256 (Jose := jose) (String c1 r1) msg
  <> hmac_sha256 (Jose := jose) (String c2 r2) msg.
Proof. simpl. rewrite !append_cons. congruence. Qed.

Definition uuid : UuidLib :=
  {| UUID := positive;
     UUID_of_str := bits_to_pos;
     str_of_UUID := pos_to_bits;
     UUID_of_str_of_UUID := bits_to_pos_to_bits |}.

(** Integers as pydantic documents them: seconds up to 2e10, milliseconds
    beyond, until the year 9999; nothing before the epoch. *)
Definition timestamp_of_int (n : Z) : option Z :=
  if (0 <=? n) && (n <=? 20000000000) then Some (n * 1000000)
  else if (20000000000 <? n) && (n <? 253402300800000) then Some (n * 1000)
  else None.

Lemma timestamp_of_int_seconds n :
  0 <= n <= 20000000000 -> timestamp_of_int n = Some (n * 1000000).
Proof.
  intros [Hlo Hhi]. unfold timestamp_of_int.
  by rewrite (proj2 (Z.leb_le 0 n) Hlo), (proj2 (Z.leb_le n _) Hhi).
Qed.

Lemma timestamp_of_int_large n :
  253402300800000 <= n -> timestamp_of_int n = None.
Proof.
  intros Hn. unfold timestamp_of_int.
  rewrite (proj2 (Z.leb_gt n 20000000000)) by lia.
  rewrite (proj2 (Z.ltb_ge n 253402300800000)) by lia.
  by rewrite !andb_false_r.
Qed.

Definition coercions : Coercions :=
  {| int_of_str := fun _ => None;
     datetime_of_str := fun _ => None;
     datetime_of_int := timestamp_of_int;
     datetime_of_float := fun _ => None;
     datetime_of_int_seconds := timestamp_of_int_seconds;
     datetime_of_int_large := timestamp_of_int_large |}.

Lemma lower_ascii_idemp c : lower_ascii (lower_ascii c) = lower_ascii c.
Proof. by destruct c as [[] [] [] [] [] [] [] []]. Qed.

Lemma ascii_lower_idemp s : ascii_lower (ascii_lower s) = ascii_lower s.
Proof.
  induction s as [|c r IH]; simpl; [done|].
  by rewrite lower_ascii_idemp, IH.
Qed.

(** ASCII text only. *)
Definition unicode : Unicode :=
  {| lower := ascii_lower;
     lower_idemp := ascii_lower_idemp;
     lower_of_ascii := fun s _ => eq_refl |}.

Definition to_string (salt chk : string) : string :=
  "$2b$" ++ ser (salt, chk).

Definition from_string (hash : string) : option (string * string) :=
  match hash with
  | String "$" (String "2" (String "b" (String "$" rest))) => deser rest
  | _ => None
  end.

Lemma from_to_string salt chk : from_string (to_string salt chk) = Some (salt, chk).
Proof. unfold to_string. simpl. apply deser_ser. Qed.

Lemma to_string_ident salt chk :
  String.prefix "$2b$" (to_string salt chk) = true.
Proof. unfold to_string. simpl. by destruct (ser (salt, chk)). Qed.

Definition bcrypt : Bcrypt :=
  {| bcrypt_raw := fun salt secret => salt ++ secret;
     bcrypt_to_string := to_string;
     bcrypt_from_string := from_string;
     bcrypt_from_to_string := from_to_string;
     bcrypt_to_string_ident := to_string_ident |}.

(** A world with one registered user, a@x.com. *)
Definition ann : UserRecord.t :=
  UserRecord.mk (pos_to_bits 5) "a@x.com" "Ann"
    (to_string "salt" ("salt" ++ "longenough1")) 0.

Definition empty_world : world (U := uuid) :=
  {| users_db := ∅; tasks := []; clock := 0;
     random_uuid := fun n => (Pos.of_succ_nat n : @UUID uuid);
     random_salt := fun n => pos_to_bits (Pos.of_succ_nat n);
     draws := 0; trace := [] |}.

Definition ann_world : world (U := uuid) :=
  {| users_db := {["a@x.com" := ann]}; tasks := []; clock := 0;
     random_uuid := fun n => (Pos.of_succ_nat n : @UUID uuid);
     random_salt := fun n => pos_to_bits (Pos.of_succ_nat n);
     draws := 0; trace := [] |}.

End Sample.

(** * Instances *)

Example lower_email `{L : Unicode} : lower "A@x.COM" = "a@x.com".
Proof. by rewrite lower_of_ascii. Qed.

Example strip_title :
  strip (String "009" " buy milk  ") = "buy milk".
Proof. reflexivity. Qed.

Section Sample_tokens.
#[local] Existing Instance Sample.jose.
#[local] Existing Instance Sample.uuid.
#[local] Existing Instance Sample.coercions.
#[local] Existing Instance Sample.bcrypt.
#[local] Existing Instance Sample.unicode.

Definition server_secret : string := "server-secret".

Definition ann_id : string := str_of_UUID (5%positive : @UUID Sample.uuid).

(** Ann's token, issued at instant 0. *)
Definition ann_token : string :=
  signed (jws_header "HS256")
    (access_token_claims 0 0 ann_id "a@x.com" "Ann") server_secret.

(** The same claims signed with another secret. *)
Definition forged_token : string :=
  signed (jws_header "HS256")
    (access_token_claims 0 0 ann_id "a@x.com" "Ann") "other-secret".

(** A token whose subject is not the text of a UUID. *)
Definition alice_token : string :=
  signed (jws_header "HS256") (claims_without_exp "alice" None) server_secret.

(** Ann's claims under a header naming no algorithm, unsigned. *)
Definition unsigned_token : string :=
  jws_signing_input (<["alg" := JStr "none"]> ∅)
    (access_token_claims 0 0 ann_id "a@x.com" "Ann")
  ++ "." ++ base64url_encode "".

Lemma jws_load_signed header payload key :
  jws_load (signed header payload key)
  = Ok (header, json_dumps payload, jws_signing_input header payload,
        hmac_sha256 key (jws_signing_input header payload)).
Proof. apply jws_load_encode. Qed.



(** [other_algorithm_rejected] at the unsigned token. *)
Lemma other_algorithm_rejected_witness :
  get_user_from_token server_secret 0 unsigned_token = Ok None.
Proof.
  eapply other_algorithm_rejected; [apply jws_load_encode|].
  map_lookup. discriminate.
Defined.




End Sample_tokens.





(** * Further properties of the code *)

(** ** Registration and login *)

Section Store_facts.
Context `{J : Jose} `{U : UuidLib} `{C : Coercions} `{B : Bcrypt}
  `{L : Unicode}.
Variable secret : string.

Lemma is_bcrypt_digest_hash salt password :
  is_bcrypt_digest (bcrypt_digest salt password) = true.
Proof.
  unfold is_bcrypt_digest, bcrypt_digest.
  by rewrite bcrypt_identify_to_string, bcrypt_from_to_string.
Qed.

(** What [signup] keeps true of [users_db]: a record sits under its own
    email, which is in lowercase; its id is the text of a UUID and its
    password field is a bcrypt digest. *)
Definition record_ok (key : string) (r : UserRecord.t) : Prop :=
  UserRecord.email r = key /\
  lower key = key /\
  is_Some (UUID_of_str (UserRecord.id r)) /\
  is_bcrypt_digest (UserRecord.hashed_password r) = true.

Definition users_db_ok (db : gmap string UserRecord.t) : Prop :=
  forall key r, db !! key = Some r -> record_ok key r.

Lemma users_db_ok_empty : users_db_ok ∅.
Proof. intros key r. by rewrite lookup_empty. Qed.

(** The three ways [signup] goes. *)
Lemma signup_cases (w : world) (d : UserCreate.t) :
  signup d w = (Raise duplicate_email, w) \/
  (users_db w !! lower (UserCreate.email d) = None /\
   secret_ok (UserCreate.password d) = true) \/
  (exists e w',
     signup d w = (Raise e, w') /\
     (e = PasswordSizeError \/ e = NullPasswordError) /\
     users_db w' = users_db w /\ tasks w' = tasks w /\ clock w' = clock w).
Proof.
  destruct (users_db w !! lower (UserCreate.email d)) as [r0|] eqn:E.
  - left. apply signup_duplicate. rewrite E. by eexists.
  - right. destruct (secret_ok (UserCreate.password d)) eqn:Eok.
    + by left.
    + right. by apply signup_refused.
Qed.

(** X1. [signup] keeps the store well formed: after any registration, every
    record is filed under its own lowercase email, carries the text of a UUID
    as id and a bcrypt digest as password. *)
Theorem signup_keeps_store_ok (w : world) (d : UserCreate.t) :
  users_db_ok (users_db w) ->
  users_db_ok (users_db (snd (signup d w))).
Proof.
  intros Hok.
  destruct (signup_cases w d) as [->|[[E Hpw]|(e & w' & -> & _ & Hdb & _)]];
    [exact Hok| |simpl; by rewrite Hdb].
  destruct (signup_fresh w d E Hpw) as (w' & -> & Hdb & _). simpl.
  rewrite Hdb. intros key r.
  destruct (decide (key = lower (UserCreate.email d))) as [->|Hne].
  - rewrite lookup_insert_eq. intros [= <-]. repeat split; simpl.
    + apply lower_idemp.
    + rewrite UUID_of_str_of_UUID. by eexists.
    + apply is_bcrypt_digest_hash.
  - rewrite lookup_insert_ne by done. apply Hok.
Qed.

(** [signup] writes one key of [users_db] and nothing else of the store,
    the tasks table or the clock. *)
Lemma signup_frame (w : world) (d : UserCreate.t) :
  (forall key, key <> lower (UserCreate.email d) ->
     users_db (snd (signup d w)) !! key = users_db w !! key) /\
  tasks (snd (signup d w)) = tasks w /\
  clock (snd (signup d w)) = clock w.
Proof.
  destruct (signup_cases w d)
    as [->|[[E Hpw]|(e & w' & -> & _ & Hdb & Htasks & Hclock)]]; [done| |].
  - destruct (signup_fresh w d E Hpw) as (w' & -> & Hdb & _ & Htasks & Hclock).
    simpl. split; [|done]. intros key Hne.
    by rewrite Hdb, lookup_insert_ne.
  - simpl. by rewrite Hdb.
Qed.

(** X2. A registration never overwrites: the record of an email already in
    the store, and every record under another email, is the same after
    [signup] as before, whatever the outcome; the tasks table is not
    touched. *)
Theorem signup_never_overwrites (w : world) (d : UserCreate.t)
    (key : string) (r : UserRecord.t) :
  users_db w !! key = Some r ->
  users_db (snd (signup d w)) !! key = Some r /\
  tasks (snd (signup d w)) = tasks w.
Proof.
  intros Hr. split; [|apply signup_frame].
  destruct (decide (key = lower (UserCreate.email d))) as [->|Hne].
  - by rewrite signup_duplicate by (rewrite Hr; by eexists).
  - by rewrite (proj1 (signup_frame w d) key Hne).
Qed.

(** X3. [signin] only reads: whatever its outcome, the store, the tasks
    table, the random source and the trace are as before. *)
Theorem signin_leaves_world_unchanged (c : UserLogin.t) (w : world) :
  snd (signin secret c w) = w.
Proof. by rewrite signin_run. Qed.


(** X5. A successful [signin] names a registered user whose stored digest
    verifies the password given; the response carries that user's email and
    name, the UUID its id parses to, and the token type "bearer". *)
Theorem signin_success_sound (c : UserLogin.t) (w : world)
    (response : TokenResponse) :
  fst (signin secret c w) = Ok response ->
  exists record,
    users_db w !! lower (UserLogin.email c) = Some record /\
    verify_password (UserLogin.password c)
      (UserRecord.hashed_password record) = Ok true /\
    UUID_of_str (UserRecord.id record) = Some (ur_id (user response)) /\
    ur_email (user response) = UserRecord.email record /\
    ur_name (user response) = UserRecord.name record /\
    token_type response = "bearer" /\
    create_access_token secret (clock w) (clock w) (UserRecord.id record)
      (UserRecord.email record) (UserRecord.name record)
    = Ok (access_token response).
Proof.
  rewrite signin_run. simpl.
  destruct (users_db w !! lower (UserLogin.email c)) as [record|] eqn:E;
    [|done].
  destruct (verify_password _ _) as [[]|e] eqn:Ev; [|done|done].
  destruct (UUID_of_str (UserRecord.id record)) as [id|] eqn:Eid; [|done].
  intros [= <-]. exists record. by repeat split.
Qed.

End Store_facts.

Section Login_facts.
Context `{J : Jose} `{U : UuidLib} `{C : Coercions} `{B : Bcrypt}
  `{L : Unicode}.
Variable secret : string.


End Login_facts.

(** ** Token verification, read backwards *)

(** A value, an [InvalidTokenError], a [TypeError] or an [OverflowError]. *)
Definition token_or_builtin_error {A} (r : result A) : Prop :=
  match r with
  | Ok _ => True
  | Raise e =>
      is_InvalidTokenError e = true \/ e = TypeError \/ e = OverflowError
  end.

Section Verify_facts.
Context `{J : Jose} `{U : UuidLib} `{C : Coercions}.
Variable secret : string.

Lemma token_or_builtin_error_bind {A B} (r : result A) (k : A -> result B) :
  token_or_builtin_error r -> (forall a, token_or_builtin_error (k a)) ->
  token_or_builtin_error (rbind r k).
Proof. destruct r; simpl; auto. Qed.

Lemma token_error_only_weaken {A} (r : result A) :
  token_error_only r -> token_or_builtin_error r.
Proof. destruct r; simpl; auto. Qed.

Lemma int_claim_raise e j :
  is_InvalidTokenError e = true -> token_or_builtin_error (int_claim e j).
Proof.
  intros He. destruct j as [|b|z|f|s|items|members]; simpl; auto.
  - destruct f; simpl; auto.
  - destruct (int_of_str s); simpl; auto.
Qed.

Lemma validate_claims_raise payload now :
  token_or_builtin_error (validate_claims payload now).
Proof.
  unfold validate_claims.
  repeat (apply token_or_builtin_error_bind; [|intros _]).
  - unfold validate_iat. destruct (payload !! "iat"); [|done].
    apply token_or_builtin_error_bind; [by apply int_claim_raise|].
    intros iat. case Z.ltb; simpl; auto.
  - unfold validate_nbf. destruct (payload !! "nbf"); [|done].
    apply token_or_builtin_error_bind; [by apply int_claim_raise|].
    intros nbf. case Z.ltb; simpl; auto.
  - unfold validate_exp. destruct (payload !! "exp"); [|done].
    apply token_or_builtin_error_bind; [by apply int_claim_raise|].
    intros exp. case Z.leb; simpl; auto.
  - apply token_error_only_weaken, validate_aud_error.
  - by apply token_error_only_weaken, validate_str_claim_error.
  - by apply token_error_only_weaken, validate_str_claim_error.
Qed.

Lemma jwt_decode_raise now token :
  token_or_builtin_error (jwt_decode now token secret [ALGORITHM]).
Proof.
  unfold jwt_decode.
  apply token_or_builtin_error_bind;
    [apply token_error_only_weaken, jws_load_error|].
  intros [[[header pbytes] si] sg].
  apply token_or_builtin_error_bind;
    [apply token_error_only_weaken, jws_verify_signature_error|].
  intros _. apply token_or_builtin_error_bind.
  { destruct (json_loads pbytes); simpl; auto. }
  intros payload. apply token_or_builtin_error_bind; [|done].
  apply validate_claims_raise.
Qed.


Lemma jws_verify_signature_ok si header sg key :
  jws_verify_signature si header sg key [ALGORITHM] = Ok tt ->
  header !! "alg" = Some (JStr ALGORITHM) /\ sg = hmac_sha256 key si.
Proof.
  unfold jws_verify_signature.
  destruct (header !! "alg") as [alg|]; [|done].
  destruct (negb (truthy alg) || negb (alg_in alg [ALGORITHM])) eqn:E; [done|].
  apply orb_false_elim in E as [_ E]. apply negb_false_iff in E.
  destruct alg as [|b|z|f|a|items|members]; try done. simpl in E.
  apply bool_decide_eq_true_1, list_elem_of_singleton in E as ->.
  simpl. destruct (String.eqb (hmac_sha256 key si) sg) eqn:Eq; [|done].
  apply String.eqb_eq in Eq. by subst.
Qed.

Lemma validate_claims_ok payload now :
  validate_claims payload now = Ok tt ->
  (forall exp, payload !! "exp" = Some (JInt exp) -> now < exp * second) /\
  (forall iat, payload !! "iat" = Some (JInt iat) -> iat * second <= now) /\
  (forall nbf, payload !! "nbf" = Some (JInt nbf) -> nbf * second <= now).
Proof.
  unfold validate_claims. intros Hv.
  destruct (validate_iat payload now) as [[]|] eqn:Ei; [simpl in Hv|done].
  destruct (validate_nbf payload now) as [[]|] eqn:En; [simpl in Hv|done].
  destruct (validate_exp payload now) as [[]|] eqn:Ex; [|done].
  repeat split.
  - intros exp Hexp. unfold validate_exp in Ex. rewrite Hexp in Ex.
    simpl in Ex. by destruct (Z.leb_spec (exp * second) now).
  - intros iat Hiat. unfold validate_iat in Ei. rewrite Hiat in Ei.
    simpl in Ei. by destruct (Z.ltb_spec now (iat * second)).
  - intros nbf Hnbf. unfold validate_nbf in En. rewrite Hnbf in En.
    simpl in En. by destruct (Z.ltb_spec now (nbf * second)).
Qed.

Lemma TokenPayload_init_ok payload p :
  TokenPayload_init payload = Ok p ->
  payload !! "sub" = Some (JStr (TokenPayload.sub p)) /\
  field_optional_str (payload !! "email") = Ok (TokenPayload.email p).
Proof.
  unfold TokenPayload_init. intros Hp.
  destruct (payload !! "sub") as [[| | | |s| |]|]; try done. simpl in Hp.
  destruct (field_optional_str _) as [em|]; [simpl in Hp|done].
  destruct (field_optional_datetime (payload !! "exp")); [simpl in Hp|done].
  destruct (field_optional_datetime (payload !! "iat")); [simpl in Hp|done].
  by injection Hp as <-.
Qed.

(** X8. What acceptance guarantees.  If [get_user_from_token] returns an
    identity, the token has three decodable segments, its header names
    HS256, its signature is the HMAC of the signing input under the server's
    secret, an integer [exp] lies in the future and integer [iat] and [nbf]
    do not, the [sub] claim is a string that parses to the identity's id, and
    the identity's email is the [email] claim. *)
Theorem accepted_token_sound (now : Z) (token : string)
    (user : AuthenticatedUser.t) :
  get_user_from_token secret now token = Ok (Some user) ->
  exists header pbytes si payload sub,
    jws_load token = Ok (header, pbytes, si, hmac_sha256 secret si) /\
    header !! "alg" = Some (JStr ALGORITHM) /\
    json_loads pbytes = Some payload /\
    (forall exp, payload !! "exp" = Some (JInt exp) -> now < exp * second) /\
    (forall iat, payload !! "iat" = Some (JInt iat) -> iat * second <= now) /\
    (forall nbf, payload !! "nbf" = Some (JInt nbf) -> nbf * second <= now) /\
    payload !! "sub" = Some (JStr sub) /\
    UUID_of_str sub = Some (AuthenticatedUser.id user) /\
    field_optional_str (payload !! "email")
    = Ok (AuthenticatedUser.email user).
Proof.
  intros Hacc.
  destruct (get_user_from_token_accepted _ _ _ _ Hacc)
    as (payload & p & Hd & Hp & Hid & Hem).
  unfold jwt_decode in Hd.
  destruct (jws_load token) as [[[[header pbytes] si] sg]|] eqn:Hl; [|done].
  simpl in Hd.
  destruct (jws_verify_signature si header sg secret [ALGORITHM])
    as [[]|] eqn:Hs; [simpl in Hd|done].
  destruct (json_loads pbytes) as [payload'|] eqn:Hj; [simpl in Hd|done].
  destruct (validate_claims payload' now) as [[]|] eqn:Hv; [|done].
  simpl in Hd. injection Hd as ->.
  destruct (jws_verify_signature_ok _ _ _ _ Hs) as [Halg ->].
  destruct (validate_claims_ok _ _ Hv) as (Hexp & Hiat & Hnbf).
  destruct (TokenPayload_init_ok _ _ Hp) as [Hsub Hemail].
  exists header, pbytes, si, payload, (TokenPayload.sub p).
  rewrite Hem in Hemail. by repeat split.
Qed.

End Verify_facts.

(** ** Optional authentication *)

Section Middleware_facts.
Context `{J : Jose} `{U : UuidLib} `{C : Coercions}.
Variable secret : string.

(** X9. [get_optional_user] and [get_current_user] agree: the first returns
    an identity exactly when the second returns it, returns [None] exactly
    where the second raises one of its two 401 exceptions (both carrying the
    WWW-Authenticate: Bearer header), and raises only what the second
    raises; neither changes the world. *)
Theorem optional_user_agrees (credentials : option string) (w : world) :
  snd (get_optional_user secret credentials w) = w /\
  snd (get_current_user secret credentials w) = w /\
  match fst (get_optional_user secret credentials w) with
  | Ok (Some user) => fst (get_current_user secret credentials w) = Ok user
  | Ok None =>
      exists code message,
        fst (get_current_user secret credentials w)
        = Raise (HTTPException 401 code message
                   [("WWW-Authenticate", "Bearer")])
  | Raise e => fst (get_current_user secret credentials w) = Raise e
  end.
Proof.
  rewrite get_current_user_run.
  destruct credentials as [token|]; simpl.
  - unfold get_optional_user, bind, utcnow, lift. simpl.
    repeat split.
    destruct (get_user_from_token secret (clock w) token) as [[user|]|e];
      [done| |done].
    by do 2 eexists.
  - repeat split. by do 2 eexists.
Qed.

End Middleware_facts.

(** ** The task service *)

From Stdlib Require Import Sorted.

Section Service_facts.
Context `{U : UuidLib}.

(** [a] may come before [b] in a listing: it was not created earlier. *)
Definition newer_first (a b : Task.t) : Prop :=
  Task.created_at b <= Task.created_at a.

Lemma insert_desc_perm t rows : task_service.insert_desc t rows ≡ₚ t :: rows.
Proof.
  induction rows as [|r rest IH]; simpl; [done|].
  case Z.ltb; [done|]. by rewrite IH, Permutation_swap.
Qed.

Lemma order_by_created_at_desc_perm rows :
  task_service.order_by_created_at_desc rows ≡ₚ rows.
Proof.
  induction rows as [|r rest IH]; simpl; [done|].
  by rewrite insert_desc_perm, IH.
Qed.

Lemma insert_desc_hd t r rows :
  newer_first r t ->
  HdRel newer_first r rows ->
  HdRel newer_first r (task_service.insert_desc t rows).
Proof.
  intros Hrt Hhd. destruct rows as [|x rest]; simpl; [by constructor|].
  case Z.ltb; constructor; [done|]. by inversion Hhd.
Qed.

Lemma insert_desc_sorted t rows :
  Sorted newer_first rows ->
  Sorted newer_first (task_service.insert_desc t rows).
Proof.
  induction 1 as [|r rest Hs IH Hhd]; simpl.
  - by repeat constructor.
  - destruct (Z.ltb_spec (Task.created_at r) (Task.created_at t)).
    + constructor; [by constructor|]. constructor. unfold newer_first. lia.
    + constructor; [done|]. by apply insert_desc_hd.
Qed.

Lemma order_by_created_at_desc_sorted rows :
  Sorted newer_first (task_service.order_by_created_at_desc rows).
Proof.
  induction rows as [|r rest IH]; simpl; [constructor|].
  by apply insert_desc_sorted.
Qed.

(** X10. [get_tasks] lists, newest first, exactly the rows of the table that
    belong to the user and pass the status filter ("pending": not completed,
    "completed": completed, anything else: no filter), each as often as it
    is in the table, and leaves the table as it is. *)
Theorem get_tasks_lists_own_rows (user_id : UUID)
    (status_filter : option string) (w : world) :
  exists rows,
    fst (task_service.get_tasks user_id status_filter w) = Ok rows /\
    tasks (snd (task_service.get_tasks user_id status_filter w)) = tasks w /\
    rows ≡ₚ List.filter
              (fun t => task_service.owned_by user_id t
                        && task_service.status_matches status_filter t)
              (tasks w) /\
    Sorted newer_first rows /\
    (forall t, t ∈ rows ->
       t ∈ tasks w /\ Task.user_id t = user_id /\
       (status_filter = Some "pending" -> Task.is_completed t = false) /\
       (status_filter = Some "completed" -> Task.is_completed t = true)).
Proof.
  eexists. split; [reflexivity|]. split; [reflexivity|].
  split; [apply order_by_created_at_desc_perm|].
  split; [apply order_by_created_at_desc_sorted|].
  intros t Ht. rewrite order_by_created_at_desc_perm in Ht.
  apply list_elem_of_In, filter_In in Ht as [Hin [Ho Hs]%andb_prop].
  apply list_elem_of_In in Hin. apply bool_decide_eq_true_1 in Ho.
  repeat split; [done|done| |]; intros ->; simpl in Hs.
  - by apply negb_true_iff.
  - done.
Qed.

End Service_facts.

(** ** Rows and their ids *)

Section Table_facts.
Context `{U : UuidLib}.

Definition task_ids (rows : list Task.t) : list UUID := map Task.id rows.

(** The row [commit_row] writes over the rows with its id. *)
Definition replace_row (task : Task.t) (rows : list Task.t) : list Task.t :=
  map (fun r => if task_service.has_id (Task.id task) r then task else r) rows.

(** The rows [delete_task] keeps. *)
Definition remove_row (task : Task.t) (rows : list Task.t) : list Task.t :=
  List.filter (fun r => negb (task_service.has_id (Task.id task) r)) rows.

Lemma has_id_true tid (t : Task.t) :
  task_service.has_id tid t = true <-> Task.id t = tid.
Proof. unfold task_service.has_id. apply bool_decide_eq_true. Qed.

Lemma owned_by_true u (t : Task.t) :
  task_service.owned_by u t = true <-> Task.user_id t = u.
Proof. unfold task_service.owned_by. apply bool_decide_eq_true. Qed.

Lemma find_task_some tid u rows (t : Task.t) :
  List.find (fun t => task_service.has_id tid t && task_service.owned_by u t)
    rows = Some t ->
  t ∈ rows /\ Task.id t = tid /\ Task.user_id t = u.
Proof.
  intros [Hin [Hi Ho]%andb_prop]%find_some.
  apply list_elem_of_In in Hin. by apply has_id_true in Hi; apply owned_by_true in Ho.
Qed.

Lemma find_task_none tid u rows :
  (forall t : Task.t, t ∈ rows -> Task.id t <> tid) ->
  List.find (fun t => task_service.has_id tid t && task_service.owned_by u t)
    rows = None.
Proof.
  intros Hno.
  destruct (List.find _ rows) as [t|] eqn:E; [|done].
  apply find_task_some in E as (Hin & Hid & _). by destruct (Hno t Hin).
Qed.

(** Ids are a key: two rows of a table without repeated ids that share an
    id are the same row. *)
Lemma task_ids_key rows (a b : Task.t) :
  NoDup (task_ids rows) -> a ∈ rows -> b ∈ rows ->
  Task.id a = Task.id b -> a = b.
Proof.
  unfold task_ids. induction rows as [|r rest IH]; simpl.
  - by intros _ Ha%elem_of_nil.
  - intros [Hr Hnd]%list.NoDup_cons [->|Ha]%elem_of_cons [->|Hb]%elem_of_cons Heq.
    + done.
    + destruct Hr. rewrite Heq. by apply list_elem_of_fmap_2.
    + destruct Hr. rewrite <- Heq. by apply list_elem_of_fmap_2.
    + by apply IH.
Qed.

Lemma task_ids_replace_row task rows :
  task_ids (replace_row task rows) = task_ids rows.
Proof.
  unfold task_ids, replace_row. rewrite map_map. apply map_ext.
  intros r. destruct (task_service.has_id (Task.id task) r) eqn:E; [|done].
  by apply has_id_true in E.
Qed.

Lemma replace_row_others task old rows (P : Task.t -> bool) :
  NoDup (task_ids rows) -> old ∈ rows -> Task.id task = Task.id old ->
  P old = false -> P task = false ->
  List.filter P (replace_row task rows) = List.filter P rows.
Proof.
  intros Hnd Hold Hid Po Pt. unfold replace_row.
  assert (forall r, r ∈ rows ->
            task_service.has_id (Task.id task) r = true -> r = old) as Hkey.
  { intros r Hr Hi%has_id_true.
    apply (task_ids_key rows r old Hnd Hr Hold). congruence. }
  clear Hnd Hold. induction rows as [|r rest IH]; simpl; [done|].
  rewrite IH by (intros x Hx; apply Hkey; by right).
  destruct (task_service.has_id (Task.id task) r) eqn:E.
  - rewrite (Hkey r (list_elem_of_here _ _) E), Po. by rewrite Pt.
  - done.
Qed.

Lemma remove_row_others old rows (P : Task.t -> bool) :
  NoDup (task_ids rows) -> old ∈ rows -> P old = false ->
  List.filter P (remove_row old rows) = List.filter P rows.
Proof.
  intros Hnd Hold Po. unfold remove_row.
  assert (forall r, r ∈ rows ->
            task_service.has_id (Task.id old) r = true -> r = old) as Hkey.
  { intros r Hr Hi%has_id_true.
    by apply (task_ids_key rows r old Hnd Hr Hold). }
  clear Hnd Hold. induction rows as [|r rest IH]; simpl; [done|].
  destruct (task_service.has_id (Task.id old) r) eqn:E; simpl.
  - rewrite (Hkey r (list_elem_of_here _ _) E), Po.
    apply IH. intros x Hx. apply Hkey. by right.
  - rewrite IH by (intros x Hx; apply Hkey; by right). done.
Qed.

Lemma remove_row_ids old rows :
  NoDup (task_ids rows) -> NoDup (task_ids (remove_row old rows)).
Proof.
  unfold task_ids, remove_row. induction rows as [|r rest IH]; simpl; [done|].
  intros [Hr Hnd]%list.NoDup_cons.
  destruct (negb (task_service.has_id (Task.id old) r)); simpl; [|by apply IH].
  apply list.NoDup_cons. split; [|by apply IH].
  intros Hin. apply Hr.
  apply list_elem_of_fmap in Hin as (x & -> & Hx).
  apply list_elem_of_fmap_2.
  by apply list_elem_of_In, filter_In in Hx as [Hx%list_elem_of_In _].
Qed.

Lemma remove_row_gone old rows (t : Task.t) :
  t ∈ remove_row old rows -> Task.id t <> Task.id old.
Proof.
  unfold remove_row.
  intros [_ Hneg]%list_elem_of_In%filter_In Heq.
  apply negb_true_iff in Hneg.
  by rewrite (proj2 (has_id_true _ _) Heq) in Hneg.
Qed.

End Table_facts.

(** ** The task endpoints *)

Ltac run_service :=
  unfold after_check, bind, task_service.get_tasks, task_service.get_task,
    task_service.create_task, task_service.update_task,
    task_service.toggle_task_completion, task_service.delete_task,
    task_service.commit_row, task_service.refresh, ret, raise, emit,
    get_tasks_table, set_tasks_table, utcnow, uuid4, next_draw;
  simpl.

Section Endpoint_facts.
Context `{J : Jose} `{U : UuidLib} `{C : Coercions}.
Variable secret : string.

Lemma authorized_or_not w credentials req :
  (exists user, authorized secret w credentials req user) \/
  (forall user, ~ authorized secret w credentials req user).
Proof.
  destruct credentials as [token|].
  2:{ right. by intros user (token & ? & _). }
  destruct (get_user_from_token secret (clock w) token) as [[user|]|e] eqn:E.
  - destruct (decide (request_user_id req = AuthenticatedUser.id user)).
    + left. exists user, token. by repeat split.
    + right. intros user' (token' & [= <-] & Htok & Heq).
      rewrite E in Htok. by injection Htok as <-.
  - right. intros user' (token' & [= <-] & Htok & _). congruence.
  - right. intros user' (token' & [= <-] & Htok & _). congruence.
Qed.

(** The world in which the rest of an endpoint runs. *)
Definition granted (req : task_request) (user : AuthenticatedUser.t)
    (w : world) : world :=
  snd (emit (AccessGranted (request_user_id req) user) w).

Lemma handle_authorized_run w credentials req user :
  authorized secret w credentials req user ->
  handle secret credentials req w = after_check req (granted req user w).
Proof.
  intros (token & -> & Htok & Heq).
  unfold handle, bind at 1. rewrite get_current_user_run, Htok.
  rewrite endpoint_check_first.
  unfold bind at 1, check_user_access, bind at 1, lift.
  by rewrite (verify_user_access_allowed _ _ Heq).
Qed.

Lemma authorized_granted w credentials req req' user :
  authorized secret w credentials req user ->
  request_user_id req' = request_user_id req ->
  forall w',
    clock w' = clock w ->
    authorized secret w' credentials req' user.
Proof.
  intros (token & -> & Htok & Heq) Hreq w' Hclock.
  exists token. by rewrite Hclock, Hreq.
Qed.

Lemma after_check_static req w :
  users_db (snd (after_check req w)) = users_db w /\
  clock (snd (after_check req w)) = clock w.
Proof.
  destruct req; run_service; repeat case_match; by simpl.
Qed.

Lemma after_check_reads req w :
  match req with
  | GetTasks _ _ | GetTask _ _ => tasks (snd (after_check req w)) = tasks w
  | _ => True
  end.
Proof. destruct req; run_service; repeat case_match; by simpl. Qed.

(** X11. No task request touches the credential store or the clock, and the
    two read requests (list, get one) leave the tasks table as it is,
    whatever their outcome. *)
Theorem task_requests_keep_credentials (w : world)
    (credentials : option string) (req : task_request) :
  users_db (snd (handle secret credentials req w)) = users_db w /\
  clock (snd (handle secret credentials req w)) = clock w /\
  match req with
  | GetTasks _ _ | GetTask _ _ =>
      tasks (snd (handle secret credentials req w)) = tasks w
  | _ => True
  end.
Proof.
  destruct (authorized_or_not w credentials req) as [[user Ha]|Hno].
  - rewrite (handle_authorized_run _ _ _ _ Ha).
    destruct (after_check_static req (granted req user w)) as [-> ->].
    pose proof (after_check_reads req (granted req user w)) as Hr.
    repeat split. by destruct req.
  - destruct (handle_unauthorized secret _ _ _ Hno) as [e ->].
    repeat split. by destruct req.
Qed.

(** The tasks a response carries. *)
Definition response_tasks (response : task_response) : list Task.t :=
  match response with
  | TaskList rows => rows
  | TaskItem task => [task]
  | NoContent => []
  end.

Lemma granted_tasks req user w : tasks (granted req user w) = tasks w.
Proof. reflexivity. Qed.

(** The rows the services write. *)
Definition created (user_id : UUID) (d : TaskCreate.t) (id : UUID) (now : Z)
  : Task.t :=
  Task.mk id user_id (strip (TaskCreate.title d))
    (match TaskCreate.description d with
     | Some x => if String.eqb x "" then None else Some (strip x)
     | None => None
     end)
    false now now.

Definition updated (t0 : Task.t) (d : TaskUpdate.t) (now : Z) : Task.t :=
  Task.mk (Task.id t0) (Task.user_id t0)
    (match TaskUpdate.title d with
     | Some x => strip x
     | None => Task.title t0
     end)
    (match TaskUpdate.description d with
     | Some x => if String.eqb (strip x) "" then None else Some (strip x)
     | None => Task.description t0
     end)
    (Task.is_completed t0) (Task.created_at t0) now.

Definition toggled (t0 : Task.t) (now : Z) : Task.t :=
  Task.mk (Task.id t0) (Task.user_id t0) (Task.title t0)
    (Task.description t0) (negb (Task.is_completed t0))
    (Task.created_at t0) now.

Definition find_task (task_id user_id : UUID) (rows : list Task.t)
  : option Task.t :=
  List.find (fun t => task_service.has_id task_id t
                      && task_service.owned_by user_id t) rows.

Lemma service_get_task_run task_id user_id w :
  task_service.get_task task_id user_id w
  = (Ok (find_task task_id user_id (tasks w)),
     snd (emit (TaskStore Select) w)).
Proof. reflexivity. Qed.

(** What the rest of an endpoint returns. *)
Lemma after_check_result req w :
  fst (after_check req w)
  = match req with
    | GetTasks u st =>
        Ok (TaskList
              (task_service.order_by_created_at_desc
                 (List.filter
                    (fun t => task_service.owned_by u t
                              && task_service.status_matches st t)
                    (tasks w))))
    | CreateTask u d =>
        Ok (TaskItem (created u d (random_uuid w (draws w)) (clock w)))
    | GetTask u tid =>
        match find_task tid u (tasks w) with
        | Some t0 => Ok (TaskItem t0)
        | None => Raise task_not_found
        end
    | UpdateTask u tid d =>
        match find_task tid u (tasks w) with
        | Some t0 => Ok (TaskItem (updated t0 d (clock w)))
        | None => Raise task_not_found
        end
    | DeleteTask u tid =>
        match find_task tid u (tasks w) with
        | Some t0 => Ok NoContent
        | None => Raise task_not_found
        end
    | ToggleTaskCompletion u tid =>
        match find_task tid u (tasks w) with
        | Some t0 => Ok (TaskItem (toggled t0 (clock w)))
        | None => Raise task_not_found
        end
    end.
Proof.
  destruct req as [u st|u d|u tid|u tid d|u tid|u tid];
    try reflexivity;
    unfold after_check; unfold bind at 1; rewrite service_get_task_run;
    by destruct (find_task _ _ _).
Qed.

(** The table the rest of an endpoint leaves. *)
Lemma after_check_tasks req w :
  tasks (snd (after_check req w))
  = match req with
    | GetTasks _ _ | GetTask _ _ => tasks w
    | CreateTask u d =>
        (tasks w ++ [created u d (random_uuid w (draws w)) (clock w)])%list
    | UpdateTask u tid d =>
        match find_task tid u (tasks w) with
        | Some t0 => replace_row (updated t0 d (clock w)) (tasks w)
        | None => tasks w
        end
    | DeleteTask u tid =>
        match find_task tid u (tasks w) with
        | Some t0 => remove_row t0 (tasks w)
        | None => tasks w
        end
    | ToggleTaskCompletion u tid =>
        match find_task tid u (tasks w) with
        | Some t0 => replace_row (toggled t0 (clock w)) (tasks w)
        | None => tasks w
        end
    end.
Proof.
  destruct req as [u st|u d|u tid|u tid d|u tid|u tid];
    try reflexivity;
    unfold after_check; unfold bind at 1; rewrite service_get_task_run;
    by destruct (find_task _ _ _).
Qed.

Lemma find_task_found tid u rows t :
  find_task tid u rows = Some t ->
  t ∈ rows /\ Task.id t = tid /\ Task.user_id t = u.
Proof. apply find_task_some. Qed.

Lemma after_check_owned req w response :
  fst (after_check req w) = Ok response ->
  forall t, t ∈ response_tasks response ->
            Task.user_id t = request_user_id req.
Proof.
  rewrite after_check_result.
  destruct req as [u st|u d|u tid|u tid d|u tid|u tid]; simpl.
  - intros [= <-] t Ht. simpl in Ht.
    rewrite order_by_created_at_desc_perm in Ht.
    apply list_elem_of_In, filter_In in Ht as [_ [Ho _]%andb_prop].
    by apply owned_by_true in Ho.
  - intros [= <-] t Ht. simpl in Ht.
    by apply list_elem_of_singleton in Ht as ->.
  - destruct (find_task tid u (tasks w)) as [t0|] eqn:E; [|done].
    intros [= <-] t Ht. simpl in Ht. apply list_elem_of_singleton in Ht as ->.
    by apply find_task_found in E as (_ & _ & ?).
  - destruct (find_task tid u (tasks w)) as [t0|] eqn:E; [|done].
    intros [= <-] t Ht. simpl in Ht. apply list_elem_of_singleton in Ht as ->.
    by apply find_task_found in E as (_ & _ & ?).
  - destruct (find_task tid u (tasks w)) as [t0|] eqn:E; [|done].
    by intros [= <-] t Ht%elem_of_nil.
  - destruct (find_task tid u (tasks w)) as [t0|] eqn:E; [|done].
    intros [= <-] t Ht. simpl in Ht. apply list_elem_of_singleton in Ht as ->.
    by apply find_task_found in E as (_ & _ & ?).
Qed.

(** X12. Every task an endpoint returns (in a listing, after a creation, a
    read, an update or a toggle) belongs to the caller: a request succeeds
    only for the identity its token verifies to, and the rows it returns
    carry that identity's id as owner. *)
Theorem returned_tasks_belong_to_caller (w : world)
    (credentials : option string) (req : task_request)
    (response : task_response) :
  fst (handle secret credentials req w) = Ok response ->
  exists user,
    authorized secret w credentials req user /\
    forall t, t ∈ response_tasks response ->
              Task.user_id t = AuthenticatedUser.id user.
Proof.
  intros Hok.
  destruct (authorized_or_not w credentials req) as [[user Ha]|Hno].
  - exists user. split; [done|].
    rewrite (handle_authorized_run _ _ _ _ Ha) in Hok.
    intros t Ht. rewrite (after_check_owned _ _ _ Hok t Ht).
    by destruct Ha as (token & _ & _ & ?).
  - destruct (handle_unauthorized secret _ _ _ Hno) as [e He].
    by rewrite He in Hok.
Qed.

Lemma after_check_others req w other :
  NoDup (task_ids (tasks w)) ->
  request_user_id req <> other ->
  List.filter (task_service.owned_by other) (tasks (snd (after_check req w)))
  = List.filter (task_service.owned_by other) (tasks w).
Proof.
  intros Hnd Hne. rewrite after_check_tasks.
  assert (forall t : Task.t, Task.user_id t = request_user_id req ->
            task_service.owned_by other t = false) as Hother.
  { intros t Ht. apply bool_decide_eq_false_2. congruence. }
  destruct req as [u st|u d|u tid|u tid d|u tid|u tid]; simpl in *;
    try done.
  - rewrite filter_app. simpl. rewrite Hother by done. apply app_nil_r.
  - destruct (find_task tid u (tasks w)) as [t0|] eqn:E; [|done].
    apply find_task_found in E as (Hin & _ & Hu).
    by apply (replace_row_others _ t0); [..|apply Hother|apply Hother].
  - destruct (find_task tid u (tasks w)) as [t0|] eqn:E; [|done].
    apply find_task_found in E as (Hin & _ & Hu).
    by apply (remove_row_others t0); [..|apply Hother].
  - destruct (find_task tid u (tasks w)) as [t0|] eqn:E; [|done].
    apply find_task_found in E as (Hin & _ & Hu).
    by apply (replace_row_others _ t0); [..|apply Hother|apply Hother].
Qed.

(** X13. Tenant isolation of writes.  In a table without repeated ids, no
    request, whatever its credentials and outcome, changes, adds or removes a
    row owned by anyone other than the identity the request is authorized
    for. *)
Theorem other_users_rows_untouched (w : world) (credentials : option string)
    (req : task_request) (other : UUID) :
  NoDup (task_ids (tasks w)) ->
  (forall user, authorized secret w credentials req user ->
                AuthenticatedUser.id user <> other) ->
  List.filter (task_service.owned_by other)
    (tasks (snd (handle secret credentials req w)))
  = List.filter (task_service.owned_by other) (tasks w).
Proof.
  intros Hnd Hother.
  destruct (authorized_or_not w credentials req) as [[user Ha]|Hno].
  - rewrite (handle_authorized_run _ _ _ _ Ha).
    rewrite after_check_others; [done|done|].
    destruct Ha as (token & E1 & E2 & E3). rewrite E3. apply Hother.
    exists token. by repeat split.
  - destruct (handle_unauthorized secret _ _ _ Hno) as [e He].
    by rewrite He.
Qed.

Lemma after_check_ids req w :
  NoDup (task_ids (tasks w)) ->
  random_uuid w (draws w) ∉ task_ids (tasks w) ->
  NoDup (task_ids (tasks (snd (after_check req w)))).
Proof.
  intros Hnd Hfresh. rewrite after_check_tasks.
  destruct req as [u st|u d|u tid|u tid d|u tid|u tid]; try done.
  - unfold task_ids. rewrite map_app. simpl.
    apply list.NoDup_app. repeat split; [done| |apply NoDup_singleton].
    intros x Hx ->%list_elem_of_singleton. by apply Hfresh.
  - destruct (find_task tid u (tasks w)) as [t0|]; [|done].
    by rewrite task_ids_replace_row.
  - destruct (find_task tid u (tasks w)) as [t0|]; [|done].
    by apply remove_row_ids.
  - destruct (find_task tid u (tasks w)) as [t0|]; [|done].
    by rewrite task_ids_replace_row.
Qed.

(** X14. Ids stay a key.  If no two rows share an id and the next UUID the
    random source yields is not the id of a row, then after any request no
    two rows share an id. *)
Theorem task_ids_stay_unique (w : world) (credentials : option string)
    (req : task_request) :
  NoDup (task_ids (tasks w)) ->
  random_uuid w (draws w) ∉ task_ids (tasks w) ->
  NoDup (task_ids (tasks (snd (handle secret credentials req w)))).
Proof.
  intros Hnd Hfresh.
  destruct (authorized_or_not w credentials req) as [[user Ha]|Hno].
  - rewrite (handle_authorized_run _ _ _ _ Ha). by apply after_check_ids.
  - destruct (handle_unauthorized secret _ _ _ Hno) as [e He].
    by rewrite He.
Qed.

Lemma replace_row_map {A} (f : Task.t -> A) task old rows :
  NoDup (task_ids rows) -> old ∈ rows -> Task.id task = Task.id old ->
  f task = f old ->
  map f (replace_row task rows) = map f rows.
Proof.
  intros Hnd Hold Hid Hf. unfold replace_row. rewrite map_map.
  apply map_ext_in. intros r Hr%list_elem_of_In.
  destruct (task_service.has_id (Task.id task) r) eqn:E; [|done].
  apply has_id_true in E.
  rewrite (task_ids_key rows r old Hnd Hr Hold) by congruence. done.
Qed.

Lemma find_task_app_fresh tid u rows (t : Task.t) :
  (forall r, r ∈ rows -> Task.id r <> tid) ->
  Task.id t = tid -> Task.user_id t = u ->
  find_task tid u (rows ++ [t]) = Some t.
Proof.
  intros Hfresh Hid Hu. unfold find_task.
  induction rows as [|r rest IH]; simpl.
  - by rewrite (proj2 (has_id_true _ _) Hid), (proj2 (owned_by_true _ _) Hu).
  - destruct (task_service.has_id tid r) eqn:E.
    + apply has_id_true in E. by destruct (Hfresh r (list_elem_of_here _ _)).
    + simpl. apply IH. intros x Hx. apply Hfresh. by right.
Qed.

Lemma find_task_replace_row tid u rows (old task : Task.t) :
  NoDup (task_ids rows) ->
  find_task tid u rows = Some old ->
  Task.id task = tid -> Task.user_id task = u ->
  find_task tid u (replace_row task rows) = Some task.
Proof.
  intros Hnd Hfind Hid Hu.
  destruct (find_task_found _ _ _ _ Hfind) as (Hold & Hoid & Hou).
  assert (forall r, r ∈ rows -> task_service.has_id tid r = true -> r = old)
    as Hkey.
  { intros r Hr Hi%has_id_true.
    apply (task_ids_key rows r old Hnd Hr Hold). congruence. }
  assert (task_service.has_id tid task && task_service.owned_by u task = true)
    as Htask.
  { by rewrite (proj2 (has_id_true _ _) Hid), (proj2 (owned_by_true _ _) Hu). }
  clear Hnd Hold. unfold find_task, replace_row in *. rewrite Hid.
  induction rows as [|r rest IH]; simpl in *; [done|].
  destruct (task_service.has_id tid r) eqn:E; simpl in *.
  - by rewrite Htask.
  - rewrite E. simpl. apply IH; [done|]. intros x Hx. apply Hkey. by right.
Qed.

(** The identity of a row: what no update may change. *)
Definition row_identity (t : Task.t) : UUID * UUID * Z :=
  (Task.id t, Task.user_id t, Task.created_at t).

(** X15. In a table without repeated ids, an update or a toggle changes no
    row's id, owner or creation time, keeps the number and order of the rows,
    and leaves every row with another id exactly as it was. *)
Theorem update_keeps_row_identity (w : world) (credentials : option string)
    (user_id task_id : UUID) (req : task_request) :
  NoDup (task_ids (tasks w)) ->
  (exists d, req = UpdateTask user_id task_id d) \/
  req = ToggleTaskCompletion user_id task_id ->
  map row_identity (tasks (snd (handle secret credentials req w)))
  = map row_identity (tasks w) /\
  List.filter (fun r => negb (task_service.has_id task_id r))
    (tasks (snd (handle secret credentials req w)))
  = List.filter (fun r => negb (task_service.has_id task_id r)) (tasks w).
Proof.
  intros Hnd Hreq.
  destruct (authorized_or_not w credentials req) as [[user Ha]|Hno].
  2:{ destruct (handle_unauthorized secret _ _ _ Hno) as [e He].
      by rewrite He. }
  rewrite (handle_authorized_run _ _ _ _ Ha), after_check_tasks.
  rewrite granted_tasks.
  destruct Hreq as [[d ->]| ->];
    (destruct (find_task task_id user_id (tasks w)) as [t0|] eqn:E; [|done]);
    destruct (find_task_found _ _ _ _ E) as (Hin & Hid & _); split.
  - by apply (replace_row_map _ _ t0).
  - apply (replace_row_others _ t0); try done;
      apply negb_false_iff, has_id_true; done.
  - by apply (replace_row_map _ _ t0).
  - apply (replace_row_others _ t0); try done;
      apply negb_false_iff, has_id_true; done.
Qed.

Lemma handle_success w credentials req response w1 :
  handle secret credentials req w = (Ok response, w1) ->
  exists user,
    authorized secret w credentials req user /\
    after_check req (granted req user w) = (Ok response, w1).
Proof.
  intros Hok.
  destruct (authorized_or_not w credentials req) as [[user Ha]|Hno].
  - exists user. split; [done|].
    by rewrite <- (handle_authorized_run _ _ _ _ Ha).
  - destruct (handle_unauthorized secret _ _ _ Hno) as [e He]. congruence.
Qed.

(** X16. Create, then read.  If the UUID drawn for a new task is not yet the
    id of a row, the task a creation returns is what a read of its id by the
    same caller returns next, and it is in the caller's listing. *)
Theorem create_then_get (w w1 : world) (credentials : option string)
    (user_id : UUID) (d : TaskCreate.t) (task : Task.t) :
  random_uuid w (draws w) ∉ task_ids (tasks w) ->
  handle secret credentials (CreateTask user_id d) w
  = (Ok (TaskItem task), w1) ->
  fst (handle secret credentials (GetTask user_id (Task.id task)) w1)
  = Ok (TaskItem task) /\
  exists rows,
    fst (handle secret credentials (GetTasks user_id None) w1)
    = Ok (TaskList rows) /\ task ∈ rows.
Proof.
  intros Hfresh Hrun.
  destruct (handle_success _ _ _ _ _ Hrun) as (user & Ha & Hafter).
  pose proof (after_check_result (CreateTask user_id d)
                (granted (CreateTask user_id d) user w)) as Hres.
  pose proof (after_check_tasks (CreateTask user_id d)
                (granted (CreateTask user_id d) user w)) as Htab.
  pose proof (proj2 (after_check_static (CreateTask user_id d)
                (granted (CreateTask user_id d) user w))) as Hclk.
  rewrite Hafter in Hres, Htab, Hclk. simpl in Hres, Htab, Hclk.
  injection Hres as ->.
  assert (forall req', request_user_id req' = user_id ->
            authorized secret w1 credentials req' user) as Ha1.
  { intros req' Hreq. by apply (authorized_granted w _ _ _ _ Ha). }
  split.
  - rewrite (handle_authorized_run _ _ _ _ (Ha1 (GetTask user_id _) eq_refl)).
    rewrite after_check_result, granted_tasks, Htab.
    rewrite find_task_app_fresh; [done| |done|done].
    intros r Hr Heq. apply Hfresh. simpl in Heq. rewrite <- Heq.
    by apply list_elem_of_fmap_2.
  - rewrite (handle_authorized_run _ _ _ _ (Ha1 (GetTasks user_id None) eq_refl)).
    rewrite after_check_result, granted_tasks, Htab.
    eexists. split; [reflexivity|].
    rewrite order_by_created_at_desc_perm.
    apply list_elem_of_In, filter_In. split.
    + apply list_elem_of_In, elem_of_app. right. apply list_elem_of_here.
    + apply andb_true_intro. split; [by apply owned_by_true|done].
Qed.

(** X17. Delete, then nothing.  After a successful deletion the table holds
    no row with the deleted id, so a read, an update, a toggle or a second
    deletion of that id by the same caller raises the 404 of a missing
    task. *)
Theorem deleted_task_is_gone (w w1 : world) (credentials : option string)
    (user_id task_id : UUID) (response : task_response)
    (req : task_request) :
  handle secret credentials (DeleteTask user_id task_id) w
  = (Ok response, w1) ->
  req = GetTask user_id task_id \/ req = DeleteTask user_id task_id \/
  req = ToggleTaskCompletion user_id task_id \/
  (exists d, req = UpdateTask user_id task_id d) ->
  (forall t, t ∈ tasks w1 -> Task.id t <> task_id) /\
  fst (handle secret credentials req w1) = Raise task_not_found.
Proof.
  intros Hrun Hreq.
  destruct (handle_success _ _ _ _ _ Hrun) as (user & Ha & Hafter).
  pose proof (after_check_result (DeleteTask user_id task_id)
                (granted (DeleteTask user_id task_id) user w)) as Hres.
  pose proof (after_check_tasks (DeleteTask user_id task_id)
                (granted (DeleteTask user_id task_id) user w)) as Htab.
  pose proof (proj2 (after_check_static (DeleteTask user_id task_id)
                (granted (DeleteTask user_id task_id) user w))) as Hclk.
  rewrite Hafter in Hres, Htab, Hclk. simpl in Hres, Htab, Hclk.
  destruct (find_task task_id user_id (tasks w)) as [t0|] eqn:E; [|done].
  destruct (find_task_found _ _ _ _ E) as (_ & Hid & _).
  assert (forall t, t ∈ tasks w1 -> Task.id t <> task_id) as Hgone.
  { intros t Ht. rewrite Htab in Ht. rewrite <- Hid.
    by apply (remove_row_gone t0 (tasks w)). }
  split; [exact Hgone|].
  assert (authorized secret w1 credentials req user) as Ha1.
  { apply (authorized_granted w _ (DeleteTask user_id task_id)); [done| |done].
    by destruct Hreq as [->|[->|[->|[d ->]]]]. }
  rewrite (handle_authorized_run _ _ _ _ Ha1), after_check_result.
  rewrite granted_tasks.
  assert (find_task task_id user_id (tasks w1) = None) as Hnone.
  { by apply find_task_none. }
  destruct Hreq as [->|[->|[->|[d ->]]]]; by rewrite Hnone.
Qed.

(** X18. Toggle twice.  In a table without repeated ids, toggling a task the
    caller can read flips its completion flag, and toggling it again returns
    the task as it was read, but for its update time. *)
Theorem toggle_twice (w : world) (credentials : option string)
    (user_id task_id : UUID) (t0 : Task.t) :
  NoDup (task_ids (tasks w)) ->
  fst (handle secret credentials (GetTask user_id task_id) w)
  = Ok (TaskItem t0) ->
  exists t1 w1,
    handle secret credentials (ToggleTaskCompletion user_id task_id) w
    = (Ok (TaskItem t1), w1) /\
    Task.is_completed t1 = negb (Task.is_completed t0) /\
    fst (handle secret credentials (ToggleTaskCompletion user_id task_id) w1)
    = Ok (TaskItem
            (Task.mk (Task.id t0) (Task.user_id t0) (Task.title t0)
               (Task.description t0) (Task.is_completed t0)
               (Task.created_at t0) (clock w))).
Proof.
  intros Hnd Hget.
  destruct (authorized_or_not w credentials (GetTask user_id task_id))
    as [[user Ha]|Hno].
  2:{ destruct (handle_unauthorized secret _ _ _ Hno) as [e He].
      by rewrite He in Hget. }
  rewrite (handle_authorized_run _ _ _ _ Ha), after_check_result in Hget.
  rewrite granted_tasks in Hget.
  destruct (find_task task_id user_id (tasks w)) as [t|] eqn:E; [|done].
  injection Hget as ->.
  destruct (find_task_found _ _ _ _ E) as (Hin & Hid & Hu).
  set (req := ToggleTaskCompletion user_id task_id).
  assert (authorized secret w credentials req user) as Ha'.
  { by apply (authorized_granted w _ (GetTask user_id task_id)). }
  pose proof (after_check_result req (granted req user w)) as Hres.
  pose proof (after_check_tasks req (granted req user w)) as Htab.
  pose proof (proj2 (after_check_static req (granted req user w))) as Hclk.
  rewrite <- (handle_authorized_run _ _ _ _ Ha') in Hres, Htab, Hclk.
  simpl in Hres, Htab, Hclk. rewrite E in Hres, Htab.
  destruct (handle secret credentials req w) as [r1 w1] eqn:Hrun.
  simpl in Hres, Htab, Hclk. subst r1.
  exists (toggled t0 (clock w)), w1. split; [done|]. split; [done|].
  assert (authorized secret w1 credentials req user) as Ha1.
  { by apply (authorized_granted w _ req). }
  rewrite (handle_authorized_run _ _ _ _ Ha1), after_check_result.
  simpl. rewrite Htab.
  rewrite (find_task_replace_row task_id user_id (tasks w) t0); try done.
  simpl. rewrite Hclk. unfold toggled. simpl.
  by rewrite negb_involutive.
Qed.

End Endpoint_facts.

(** ** Text the services store *)

(** Only whitespace. *)
Fixpoint blank (s : string) : bool :=
  match s with
  | EmptyString => true
  | String c r => is_space c && blank r
  end.

Lemma lstrip_blank s : blank s = true -> lstrip s = "".
Proof.
  induction s as [|c r IH]; simpl; [done|].
  intros [Hc Hr]%andb_prop. rewrite Hc. by apply IH.
Qed.

Lemma strip_blank s : blank s = true -> strip s = "".
Proof. intros H. unfold strip. by rewrite lstrip_blank. Qed.

Lemma rstrip_idemp s : rstrip (rstrip s) = rstrip s.
Proof.
  induction s as [|c r IH]; simpl; [done|].
  destruct (rstrip r) as [|c' r'] eqn:E.
  - destruct (is_space c) eqn:Ec; simpl; [done|]. by rewrite Ec.
  - simpl in *. by rewrite IH.
Qed.

(** A string that does not begin with whitespace. *)
Definition no_leading_space (s : string) : Prop :=
  match s with
  | EmptyString => True
  | String c _ => is_space c = false
  end.

Lemma lstrip_no_leading_space s : no_leading_space (lstrip s).
Proof.
  induction s as [|c r IH]; simpl; [done|].
  by destruct (is_space c) eqn:E.
Qed.

Lemma lstrip_fixed s : no_leading_space s -> lstrip s = s.
Proof. destruct s as [|c r]; simpl; [done|]. by intros ->. Qed.

Lemma rstrip_no_leading_space s :
  no_leading_space s -> no_leading_space (rstrip s).
Proof.
  destruct s as [|c r]; simpl; [done|]. intros Hc.
  destruct (rstrip r); simpl; [by rewrite Hc|done].
Qed.

Lemma strip_idemp s : strip (strip s) = strip s.
Proof.
  unfold strip.
  rewrite (lstrip_fixed (rstrip (lstrip s))).
  - apply rstrip_idemp.
  - apply rstrip_no_leading_space, lstrip_no_leading_space.
Qed.

Section Text_facts.
Context `{J : Jose} `{U : UuidLib} `{C : Coercions}.
Variable secret : string.

(** X19. Whitespace-only text.  A title made of whitespace only is stored as
    the empty title, by creation and by update alike; a description made of
    whitespace only is stored as the empty description by creation and as no
    description by update. *)
Theorem blank_text_is_emptied (s : string) (user_id : UUID) (t0 : Task.t)
    (w : world) :
  blank s = true -> s <> "" ->
  (exists t,
     fst (task_service.create_task user_id (TaskCreate.mk s (Some s)) w)
     = Ok t /\
     Task.title t = "" /\ Task.description t = Some "") /\
  (exists t,
     fst (task_service.update_task t0 (TaskUpdate.mk (Some s) (Some s)) w)
     = Ok t /\
     Task.title t = "" /\ Task.description t = None).
Proof.
  intros Hb Hs. split; eexists; (split; [reflexivity|]); simpl;
    rewrite (strip_blank s Hb).
  - split; [reflexivity|].
    rewrite (proj2 (String.eqb_neq s "") Hs). reflexivity.
  - split; reflexivity.
Qed.

(** Titles and descriptions as [strip] leaves them. *)
Definition stripped (t : Task.t) : Prop :=
  strip (Task.title t) = Task.title t /\
  forall d, Task.description t = Some d -> strip d = d.

Lemma created_stripped user_id d id now : stripped (created user_id d id now).
Proof.
  split; simpl; [apply strip_idemp|].
  destruct (TaskCreate.description d) as [x|]; [|done].
  destruct (String.eqb x ""); [done|]. intros ? [= <-]. apply strip_idemp.
Qed.

Lemma updated_stripped t0 d now : stripped t0 -> stripped (updated t0 d now).
Proof.
  intros [Ht Hd]. split; simpl.
  - destruct (TaskUpdate.title d); [apply strip_idemp|done].
  - destruct (TaskUpdate.description d) as [x|]; [|done].
    destruct (String.eqb (strip x) ""); [done|].
    intros ? [= <-]. apply strip_idemp.
Qed.

Lemma elem_of_replace_row task rows (r : Task.t) :
  r ∈ replace_row task rows -> r = task \/ r ∈ rows.
Proof.
  unfold replace_row. intros (x & -> & Hx)%list_elem_of_fmap.
  destruct (task_service.has_id (Task.id task) x); auto.
Qed.

Lemma elem_of_remove_row task rows (r : Task.t) :
  r ∈ remove_row task rows -> r ∈ rows.
Proof.
  unfold remove_row. by intros [?%list_elem_of_In _]%list_elem_of_In%filter_In.
Qed.

(** X20. Stored text stays stripped.  If every row's title and description
    are as [strip] leaves them (no whitespace at either end), the same holds
    after any request: creations and updates write stripped text only. *)
Theorem stored_text_stays_stripped (w : world) (credentials : option string)
    (req : task_request) :
  (forall t, t ∈ tasks w -> stripped t) ->
  forall t, t ∈ tasks (snd (handle secret credentials req w)) -> stripped t.
Proof.
  intros Hinv t.
  destruct (authorized_or_not secret w credentials req) as [[user Ha]|Hno].
  2:{ destruct (handle_unauthorized secret _ _ _ Hno) as [e He].
      rewrite He. apply Hinv. }
  rewrite (handle_authorized_run _ _ _ _ _ Ha), after_check_tasks.
  rewrite granted_tasks.
  destruct req as [u st|u d|u tid|u tid d|u tid|u tid]; simpl;
    try apply Hinv.
  - intros [Ht| ->%list_elem_of_singleton]%elem_of_app; [by apply Hinv|].
    apply created_stripped.
  - destruct (find_task tid u (tasks w)) as [t0|] eqn:E; [|apply Hinv].
    intros [->|Ht]%elem_of_replace_row; [|by apply Hinv].
    apply updated_stripped, Hinv. by apply find_task_found in E as [? _].
  - destruct (find_task tid u (tasks w)) as [t0|] eqn:E; [|apply Hinv].
    intros Ht%elem_of_remove_row. by apply Hinv.
  - destruct (find_task tid u (tasks w)) as [t0|] eqn:E; [|apply Hinv].
    intros [->|Ht]%elem_of_replace_row; [|by apply Hinv].
    apply (Hinv t0). by apply find_task_found in E as [? _].
Qed.

End Text_facts.

(** * src/core/config.py: the database URL *)

(** ** [in], [split] and [replace] on strings, for a separator that is not
    empty *)

(** [s.split(sep, 1)] when [sep] occurs: the text before and after its
    first occurrence. *)
Fixpoint cut (sep s : string) : option (string * string) :=
  if String.prefix sep s
  then Some (EmptyString, String.substring (String.length sep)
                            (String.length s - String.length sep) s)
  else
    match s with
    | EmptyString => None
    | String c r =>
        match cut sep r with
        | Some (a, b) => Some (String c a, b)
        | None => None
        end
    end.

(** [sep in s] *)
Definition contains (sep s : string) : bool :=
  match cut sep s with Some _ => true | None => false end.

(** [s.split(sep)[0]] *)
Definition before (sep s : string) : string :=
  match cut sep s with Some (a, _) => a | None => s end.

(** [s.replace(old, new, 1)] *)
Definition replace_first (old new s : string) : string :=
  match cut old s with Some (a, b) => a ++ new ++ b | None => s end.

(** [s.replace(old, new)]: occurrences are replaced from the left and do
    not overlap; [skip] counts the characters of an occurrence still to
    pass. *)
Fixpoint replace_from (old new : string) (skip : nat) (s : string) : string :=
  match s with
  | EmptyString => EmptyString
  | String c r =>
      match skip with
      | S k => replace_from old new k r
      | O =>
          if String.prefix old s
          then new ++ replace_from old new (String.length old - 1) r
          else String c (replace_from old new 0 r)
      end
  end.

Definition replace (old new s : string) : string := replace_from old new 0 s.

(** [Settings.async_database_url] of [DATABASE_URL]. *)
Definition async_database_url (DATABASE_URL : string) : string :=
  let url := DATABASE_URL in
  let url :=
    if String.prefix "postgresql://" url
    then replace_first "postgresql://" "postgresql+asyncpg://" url
    else url in
  if contains "?sslmode=" url then before "?sslmode=" url
  else if contains "&sslmode=" url then
    replace "&sslmode=disable" ""
      (replace "&sslmode=prefer" "" (replace "&sslmode=require" "" url))
  else url.

(** [Settings.requires_ssl] of [DATABASE_URL]. *)
Definition requires_ssl (DATABASE_URL : string) : bool :=
  contains "sslmode=require" DATABASE_URL || contains "neon.tech" DATABASE_URL.

Example async_database_url_neon :
  async_database_url
    "postgresql://u:p@ep.neon.tech/db?sslmode=require&channel_binding=require"
  = "postgresql+asyncpg://u:p@ep.neon.tech/db".
Proof. reflexivity. Qed.

Example async_database_url_second_parameter :
  async_database_url "postgresql://h/db?a=1&sslmode=require&b=2"
  = "postgresql+asyncpg://h/db?a=1&b=2".
Proof. reflexivity. Qed.

Example async_database_url_other_mode :
  async_database_url "postgresql://h/db?a=1&sslmode=verify-full"
  = "postgresql+asyncpg://h/db?a=1&sslmode=verify-full".
Proof. reflexivity. Qed.

Lemma substring_whole s : String.substring 0 (String.length s) s = s.
Proof. induction s as [|c r IH]; simpl; [done|]. by rewrite IH. Qed.

Lemma prefix_cons c p c' s :
  String.prefix (String c p) (String c' s)
  = if ascii_dec c c' then String.prefix p s else false.
Proof. reflexivity. Qed.

Lemma prefix_empty c p : String.prefix (String c p) "" = false.
Proof. reflexivity. Qed.

Lemma prefix_split p s :
  String.prefix p s = true ->
  s = p ++ String.substring (String.length p)
             (String.length s - String.length p) s.
Proof.
  revert s. induction p as [|c p IH]; intros s.
  - intros _. simpl. by rewrite Nat.sub_0_r, substring_whole.
  - destruct s as [|c' s]; [by rewrite prefix_empty|].
    rewrite prefix_cons.
    destruct (ascii_dec c c') as [->|]; [|done].
    intros H. rewrite append_cons. f_equal. exact (IH s H).
Qed.

Lemma prefix_append p x y :
  String.prefix p x = true -> String.prefix p (x ++ y) = true.
Proof.
  revert x. induction p as [|c p IH]; intros x.
  - intros _. by destruct (x ++ y).
  - destruct x as [|c' x]; [by rewrite prefix_empty|].
    rewrite append_cons, !prefix_cons.
    destruct (ascii_dec c c'); [apply IH|done].
Qed.

Lemma cut_unfold sep s :
  cut sep s
  = if String.prefix sep s
    then Some (EmptyString, String.substring (String.length sep)
                              (String.length s - String.length sep) s)
    else
      match s with
      | EmptyString => None
      | String c r =>
          match cut sep r with
          | Some (a, b) => Some (String c a, b)
          | None => None
          end
      end.
Proof. by destruct s. Qed.

(** [cut] splits around an occurrence. *)
Lemma cut_split sep s a b : cut sep s = Some (a, b) -> s = a ++ sep ++ b.
Proof.
  revert a b. induction s as [|c r IH]; intros a b; rewrite cut_unfold.
  - destruct (String.prefix sep "") eqn:E; [|done].
    intros [= <- <-]. by apply prefix_split.
  - destruct (String.prefix sep (String c r)) eqn:E.
    + intros [= <- <-]. by apply prefix_split.
    + destruct (cut sep r) as [[a' b']|] eqn:Ec; [|done].
      intros [= <- <-]. rewrite append_cons. f_equal. by apply IH.
Qed.

(** The occurrence is the first: the text before it holds none. *)
Lemma cut_before sep s a b :
  sep <> "" -> cut sep s = Some (a, b) -> cut sep a = None.
Proof.
  intros Hsep. revert a b.
  induction s as [|c r IH]; intros a b; rewrite cut_unfold.
  - destruct sep; [done|]. by simpl.
  - destruct (String.prefix sep (String c r)) eqn:E.
    + intros [= <- <-]. by destruct sep.
    + destruct (cut sep r) as [[a' b']|] eqn:Ec; [|done].
      intros [= <- <-]. rewrite cut_unfold.
      destruct (String.prefix sep (String c a')) eqn:E'.
      * apply (prefix_append _ _ (sep ++ b')) in E'.
        rewrite append_cons, <- (cut_split _ _ _ _ Ec) in E'. congruence.
      * by rewrite (IH a' b' eq_refl).
Qed.

Lemma contains_before sep s :
  sep <> "" -> contains sep s = true -> contains sep (before sep s) = false.
Proof.
  intros Hsep. unfold contains, before.
  destruct (cut sep s) as [[a b]|] eqn:E; [|done]. intros _.
  by rewrite (cut_before _ _ _ _ Hsep E).
Qed.

(** The URL after its scheme has been rewritten. *)
Definition asyncpg_scheme (url : string) : string :=
  if String.prefix "postgresql://" url
  then replace_first "postgresql://" "postgresql+asyncpg://" url
  else url.

Lemma asyncpg_scheme_prefixed url :
  String.prefix "postgresql://" url = true ->
  exists rest,
    url = "postgresql://" ++ rest /\
    asyncpg_scheme url = "postgresql+asyncpg://" ++ rest.
Proof.
  intros Hp. exists (String.substring 13 (String.length url - 13) url).
  split; [by apply (prefix_split "postgresql://")|].
  unfold asyncpg_scheme, replace_first. rewrite Hp, cut_unfold, Hp.
  reflexivity.
Qed.

Lemma cut_after_scheme sep rest :
  String.prefix "?" sep = true \/ String.prefix "&" sep = true ->
  cut sep ("postgresql+asyncpg://" ++ rest)
  = match cut sep rest with
    | Some (a, b) => Some ("postgresql+asyncpg://" ++ a, b)
    | None => None
    end /\
  cut sep ("postgresql://" ++ rest)
  = match cut sep rest with
    | Some (a, b) => Some ("postgresql://" ++ a, b)
    | None => None
    end.
Proof.
  intros Hsep.
  assert (forall c (x : string),
            c <> "?"%char -> c <> "&"%char ->
            cut sep (String c x)
            = match cut sep x with
              | Some (a, b) => Some (String c a, b)
              | None => None
              end) as Hstep.
  { intros c x H1 H2. rewrite cut_unfold.
    destruct sep as [|c0 sep0]; [by destruct Hsep|].
    rewrite prefix_cons. rewrite !prefix_cons in Hsep.
    destruct (ascii_dec c0 c) as [->|]; [|done].
    destruct Hsep as [H|H].
    - by destruct (ascii_dec "?" c).
    - by destruct (ascii_dec "&" c). }
  split; rewrite !append_cons, !append_nil_l, !Hstep by done;
    by destruct (cut sep rest) as [[a b]|].
Qed.

(** X21. Whenever [DATABASE_URL] holds "?sslmode=", [async_database_url]
    returns the URL, scheme rewritten, cut before the first "?sslmode=":
    the result holds no "?sslmode=", and every parameter that followed is
    dropped with it. *)
Theorem async_database_url_drops_sslmode_query (url : string) :
  contains "?sslmode=" url = true ->
  contains "?sslmode=" (async_database_url url) = false /\
  exists dropped,
    asyncpg_scheme url = async_database_url url ++ "?sslmode=" ++ dropped.
Proof.
  intros Hc.
  assert (contains "?sslmode=" (asyncpg_scheme url) = true) as Hc'.
  { destruct (String.prefix "postgresql://" url) eqn:Hp.
    - destruct (asyncpg_scheme_prefixed url Hp) as (rest & Hu & ->).
      rewrite Hu in Hc. unfold contains in *.
      destruct (cut_after_scheme "?sslmode=" rest (or_introl eq_refl))
        as [-> E].
      rewrite E in Hc. by destruct (cut "?sslmode=" rest) as [[a b]|].
    - unfold asyncpg_scheme. by rewrite Hp. }
  assert (async_database_url url = before "?sslmode=" (asyncpg_scheme url))
    as ->.
  { unfold async_database_url. fold (asyncpg_scheme url). by rewrite Hc'. }
  split; [by apply contains_before|].
  unfold contains, before in *.
  destruct (cut "?sslmode=" (asyncpg_scheme url)) as [[a b]|] eqn:E; [|done].
  exists b. by apply cut_split.
Qed.

Lemma prefix_refl_append p x : String.prefix p (p ++ x) = true.
Proof.
  induction p as [|c p IH]; [by destruct x|].
  rewrite append_cons, prefix_cons. by destruct (ascii_dec c c).
Qed.

Lemma replace_after_scheme old new rest :
  String.prefix "&" old = true ->
  replace old new ("postgresql+asyncpg://" ++ rest)
  = "postgresql+asyncpg://" ++ replace old new rest.
Proof.
  intros Hold. unfold replace.
  assert (forall c (x : string),
            c <> "&"%char ->
            replace_from old new 0 (String c x)
            = String c (replace_from old new 0 x)) as Hstep.
  { intros c x Hc. simpl.
    destruct old as [|c0 old0]; [done|].
    rewrite prefix_cons in *.
    destruct (ascii_dec "&" c0) as [<-|]; [|done].
    by destruct (ascii_dec "&" c). }
  rewrite !append_cons, !append_nil_l. by rewrite !Hstep.
Qed.

(** X22. A [DATABASE_URL] that begins with "postgresql://" comes out of
    [async_database_url] beginning with "postgresql+asyncpg://", whichever
    way its sslmode parameter is removed; a URL with another scheme and no
    "?sslmode=" or "&sslmode=" comes out unchanged. *)
Theorem async_database_url_scheme (url : string) :
  (String.prefix "postgresql://" url = true ->
   String.prefix "postgresql+asyncpg://" (async_database_url url) = true) /\
  (String.prefix "postgresql://" url = false ->
   contains "?sslmode=" url = false ->
   contains "&sslmode=" url = false ->
   async_database_url url = url).
Proof.
  split.
  - intros Hp. destruct (asyncpg_scheme_prefixed url Hp) as (rest & _ & Hs).
    unfold async_database_url. fold (asyncpg_scheme url). rewrite Hs.
    unfold contains, before.
    destruct (cut_after_scheme "?sslmode=" rest (or_introl eq_refl))
      as [-> _].
    destruct (cut "?sslmode=" rest) as [[a b]|]; [apply prefix_refl_append|].
    destruct (cut "&sslmode=" _); [|apply prefix_refl_append].
    rewrite !replace_after_scheme by done. apply prefix_refl_append.
  - intros Hp H1 H2. unfold async_database_url. by rewrite Hp, H1, H2.
Qed.

(** * Instances of the further properties *)

Section Sample_requests.
#[local] Existing Instance Sample.jose.
#[local] Existing Instance Sample.uuid.
#[local] Existing Instance Sample.coercions.
#[local] Existing Instance Sample.bcrypt.
#[local] Existing Instance Sample.unicode.

Definition ann_uuid : @UUID Sample.uuid := 5%positive.
Definition bob_uuid : @UUID Sample.uuid := 7%positive.

Definition ann_user : AuthenticatedUser.t :=
  AuthenticatedUser.mk ann_uuid (Some "a@x.com").

(** Ann's task and Bob's task. *)
Definition milk : Task.t :=
  Task.mk (10%positive : @UUID Sample.uuid) ann_uuid "buy milk" None false
    1 1.
Definition bread : Task.t :=
  Task.mk (11%positive : @UUID Sample.uuid) bob_uuid "bake bread"
    (Some "rye") true 2 2.

Definition task_world : world (U := Sample.uuid) :=
  {| users_db := {["a@x.com" := Sample.ann]};
     tasks := [milk; bread];
     clock := 0;
     random_uuid := fun n => (Pos.of_nat (n + 100) : @UUID Sample.uuid);
     random_salt := fun n => Sample.pos_to_bits (Pos.of_succ_nat n);
     draws := 0; trace := [] |}.

(** A token signed under the secret whose payload has no [sub]. *)
Definition anonymous_token : string :=
  signed (jws_header "HS256") ∅ server_secret.

Lemma ann_world_ok : users_db_ok (users_db Sample.ann_world).
Proof.
  intros key r H. simpl in H.
  apply lookup_singleton_Some in H as [<- <-].
  split; [reflexivity|]. split; [reflexivity|].
  split; [eexists; reflexivity|]. vm_compute. reflexivity.
Qed.

Lemma signup_keeps_store_ok_witness :
  users_db_ok
    (users_db (snd (signup (UserCreate.mk "B@x.com" "longenough2" "Bob")
                      Sample.ann_world))).
Proof. apply signup_keeps_store_ok, ann_world_ok. Defined.

Lemma signup_never_overwrites_witness :
  users_db (snd (signup (UserCreate.mk "A@X.COM" "longenough2" "Eve")
                   Sample.ann_world)) !! "a@x.com"
  = Some Sample.ann /\
  tasks (snd (signup (UserCreate.mk "A@X.COM" "longenough2" "Eve")
                Sample.ann_world))
  = tasks Sample.ann_world.
Proof. apply signup_never_overwrites, lookup_singleton_eq. Defined.


Definition ann_response : TokenResponse :=
  {| access_token := ann_token;
     token_type := "bearer";
     user := {| ur_id := ann_uuid; ur_email := "a@x.com";
                ur_name := "Ann" |} |}.

Lemma signin_success_sound_witness :
  exists record,
    users_db Sample.ann_world !! lower "A@x.com" = Some record /\
    verify_password "longenough1" (UserRecord.hashed_password record)
    = Ok true /\
    UUID_of_str (UserRecord.id record) = Some (ur_id (user ann_response)) /\
    ur_email (user ann_response) = UserRecord.email record /\
    ur_name (user ann_response) = UserRecord.name record /\
    token_type ann_response = "bearer" /\
    create_access_token server_secret (clock Sample.ann_world)
      (clock Sample.ann_world) (UserRecord.id record)
      (UserRecord.email record) (UserRecord.name record)
    = Ok (access_token ann_response).
Proof.
  apply (signin_success_sound server_secret
           (UserLogin.mk "A@x.com" "longenough1")).
  reflexivity.
Defined.



Lemma accepted_token_sound_witness :
  exists header pbytes si payload sub,
    jws_load ann_token = Ok (header, pbytes, si, hmac_sha256 server_secret si)
    /\
    header !! "alg" = Some (JStr ALGORITHM) /\
    json_loads pbytes = Some payload /\
    (forall exp, payload !! "exp" = Some (JInt exp) ->
                 3600000000 < exp * second) /\
    (forall iat, payload !! "iat" = Some (JInt iat) ->
                 iat * second <= 3600000000) /\
    (forall nbf, payload !! "nbf" = Some (JInt nbf) ->
                 nbf * second <= 3600000000) /\
    payload !! "sub" = Some (JStr sub) /\
    UUID_of_str sub = Some (AuthenticatedUser.id ann_user) /\
    field_optional_str (payload !! "email")
    = Ok (AuthenticatedUser.email ann_user).
Proof.
  apply (accepted_token_sound server_secret 3600000000 ann_token ann_user).
  vm_compute. reflexivity.
Defined.

(** ** Requests on a table of two tasks *)

Definition ann_credentials : option string := Some ann_token.

Definition tea : TaskCreate.t := TaskCreate.mk " make tea " (Some "  ").

Definition tea_task : Task.t :=
  Task.mk (100%positive : @UUID Sample.uuid) ann_uuid "make tea" (Some "")
    false 0 0.

Definition after_create : world (U := Sample.uuid) :=
  snd (handle server_secret ann_credentials (CreateTask ann_uuid tea)
         task_world).

Definition after_delete : world (U := Sample.uuid) :=
  snd (handle server_secret ann_credentials
         (DeleteTask ann_uuid (Task.id milk)) task_world).

Lemma task_world_ids : NoDup (task_ids (tasks task_world)).
Proof. refine (bool_decide_unpack _ _). vm_compute. exact I. Qed.

Lemma task_world_fresh :
  random_uuid task_world (draws task_world) ∉ task_ids (tasks task_world).
Proof. refine (bool_decide_unpack _ _). vm_compute. exact I. Qed.

Lemma task_world_stripped t : t ∈ tasks task_world -> stripped t.
Proof.
  simpl. intros [->|Ht]%elem_of_cons.
  { split; [reflexivity|]. intros d Hd. discriminate Hd. }
  apply elem_of_cons in Ht as [->|Ht].
  { split; [reflexivity|]. intros d [= <-]. reflexivity. }
  by apply elem_of_nil in Ht.
Qed.

Lemma ann_is_not_bob user req :
  request_user_id req = ann_uuid ->
  authorized server_secret task_world ann_credentials req user ->
  AuthenticatedUser.id user <> bob_uuid.
Proof.
  intros Hreq (token & _ & _ & Heq). rewrite <- Heq, Hreq. discriminate.
Qed.

Lemma returned_tasks_belong_to_caller_witness :
  exists user,
    authorized server_secret task_world ann_credentials
      (GetTasks ann_uuid None) user /\
    forall t, t ∈ response_tasks (TaskList [milk]) ->
              Task.user_id t = AuthenticatedUser.id user.
Proof.
  apply (returned_tasks_belong_to_caller server_secret task_world
           ann_credentials (GetTasks ann_uuid None) (TaskList [milk])).
  vm_compute. reflexivity.
Defined.

Lemma other_users_rows_untouched_witness :
  List.filter (task_service.owned_by bob_uuid)
    (tasks (snd (handle server_secret ann_credentials
                   (DeleteTask ann_uuid (Task.id bread)) task_world)))
  = List.filter (task_service.owned_by bob_uuid) (tasks task_world).
Proof.
  apply (other_users_rows_untouched server_secret task_world ann_credentials
           (DeleteTask ann_uuid (Task.id bread)) bob_uuid).
  - exact task_world_ids.
  - intros user. apply ann_is_not_bob. reflexivity.
Defined.

Lemma task_ids_stay_unique_witness :
  NoDup (task_ids (tasks after_create)).
Proof.
  unfold after_create.
  apply (task_ids_stay_unique server_secret task_world ann_credentials
           (CreateTask ann_uuid tea)).
  - exact task_world_ids.
  - exact task_world_fresh.
Defined.

Lemma update_keeps_row_identity_witness :
  map row_identity
    (tasks (snd (handle server_secret ann_credentials
                   (UpdateTask ann_uuid (Task.id milk)
                      (TaskUpdate.mk (Some " buy oat milk ") None))
                   task_world)))
  = map row_identity (tasks task_world) /\
  List.filter (fun r => negb (task_service.has_id (Task.id milk) r))
    (tasks (snd (handle server_secret ann_credentials
                   (UpdateTask ann_uuid (Task.id milk)
                      (TaskUpdate.mk (Some " buy oat milk ") None))
                   task_world)))
  = List.filter (fun r => negb (task_service.has_id (Task.id milk) r))
      (tasks task_world).
Proof.
  apply (update_keeps_row_identity server_secret task_world ann_credentials
           ann_uuid (Task.id milk)).
  - exact task_world_ids.
  - left. eexists. reflexivity.
Defined.

Lemma create_then_get_witness :
  fst (handle server_secret ann_credentials
         (GetTask ann_uuid (Task.id tea_task)) after_create)
  = Ok (TaskItem tea_task) /\
  exists rows,
    fst (handle server_secret ann_credentials (GetTasks ann_uuid None)
           after_create)
    = Ok (TaskList rows) /\ tea_task ∈ rows.
Proof.
  apply (create_then_get server_secret task_world after_create
           ann_credentials ann_uuid tea tea_task).
  - exact task_world_fresh.
  - vm_compute. reflexivity.
Defined.

Lemma deleted_task_is_gone_witness :
  (forall t, t ∈ tasks after_delete -> Task.id t <> Task.id milk) /\
  fst (handle server_secret ann_credentials
         (GetTask ann_uuid (Task.id milk)) after_delete)
  = Raise task_not_found.
Proof.
  apply (deleted_task_is_gone server_secret task_world after_delete
           ann_credentials ann_uuid (Task.id milk) NoContent).
  - vm_compute. reflexivity.
  - left. reflexivity.
Defined.

Lemma toggle_twice_witness :
  exists t1 w1,
    handle server_secret ann_credentials
      (ToggleTaskCompletion ann_uuid (Task.id milk)) task_world
    = (Ok (TaskItem t1), w1) /\
    Task.is_completed t1 = negb (Task.is_completed milk) /\
    fst (handle server_secret ann_credentials
           (ToggleTaskCompletion ann_uuid (Task.id milk)) w1)
    = Ok (TaskItem
            (Task.mk (Task.id milk) (Task.user_id milk) (Task.title milk)
               (Task.description milk) (Task.is_completed milk)
               (Task.created_at milk) (clock task_world))).
Proof.
  apply (toggle_twice server_secret task_world ann_credentials ann_uuid
           (Task.id milk) milk).
  - exact task_world_ids.
  - vm_compute. reflexivity.
Defined.

Lemma blank_text_is_emptied_witness :
  (exists t,
     fst (task_service.create_task ann_uuid (TaskCreate.mk "  " (Some "  "))
            task_world)
     = Ok t /\
     Task.title t = "" /\ Task.description t = Some "") /\
  (exists t,
     fst (task_service.update_task milk
            (TaskUpdate.mk (Some "  ") (Some "  ")) task_world)
     = Ok t /\
     Task.title t = "" /\ Task.description t = None).
Proof.
  apply (blank_text_is_emptied "  " ann_uuid milk task_world).
  - reflexivity.
  - discriminate.
Defined.

Lemma stored_text_stays_stripped_witness : stripped tea_task.
Proof.
  apply (stored_text_stays_stripped server_secret task_world ann_credentials
           (CreateTask ann_uuid tea)).
  - exact task_world_stripped.
  - change (tea_task ∈ tasks after_create).
    assert (tasks after_create = [milk; bread; tea_task]) as ->
      by (vm_compute; reflexivity).
    apply list_elem_of_further, list_elem_of_further, list_elem_of_here.
Defined.

End Sample_requests.

Definition neon_url : string :=
  "postgresql://u:p@ep.neon.tech/db?sslmode=require&channel_binding=require".

Lemma async_database_url_drops_sslmode_query_witness :
  contains "?sslmode=" (async_database_url neon_url) = false /\
  exists dropped,
    asyncpg_scheme neon_url
    = async_database_url neon_url ++ "?sslmode=" ++ dropped.
Proof.
  apply (async_database_url_drops_sslmode_query neon_url). reflexivity.
Defined.

Lemma async_database_url_scheme_witness :
  String.prefix "postgresql+asyncpg://" (async_database_url neon_url) = true.
Proof.
  apply (proj1 (async_database_url_scheme neon_url)). reflexivity.
Defined.
